(** * Wav2Letter (speechless, [net.py]): a shallow embedding

    The development follows [src/net.py].  Python integers that count
    things (shapes, strides, lengths) are [nat]; the one integer that is
    used as a slice bound ([frozen_layer_count]) is a [Z], so that
    Python's treatment of negative slice bounds is written out.  Python
    exceptions are a result type; the [@lazy] properties of the class are
    explicit cache fields of the object, threaded through a small
    state-and-exception monad.  Keras' symbolic graph is a small term
    language; what Keras computes numerically is taken as a parameter. *)

From Stdlib Require Import QArith Qcanon.
From Stdlib Require PrimFloat Uint63 FloatOps SpecFloat.
From stdpp Require Import base list strings numbers pretty.
From stdpp Require Import gmap.

Set Default Proof Using "Type".

(** ** Python exceptions and results *)

Inductive exception :=
| IndexError
| ValueError
| ZeroDivisionError
| NotImplementedError (msg : string).

(** What a Python call hands back to its caller. *)
Inductive PyValue (float : Type) :=
| PyNone
| PyFloat (x : float).
Arguments PyNone {float}.
Arguments PyFloat {float} x.

Definition result (A : Type) : Type := exception + A.

Definition is_raised {A} (r : result A) : bool :=
  match r with inl _ => true | inr _ => false end.

(** ** Keras layers, as far as [net.py] configures them *)

Section Layers.
Context {float : Type}.

Inductive Layer :=
| Dropout (p : float) (input_dim : option nat) (name : string)
          (trainable : bool)
| Convolution1D (nb_filter filter_length subsample_length : nat)
                (activation : string) (name : string)
                (input_dim : option nat) (trainable : bool).

(** [isinstance(layer, Convolution1D)] *)
Definition is_Convolution1D (l : Layer) : bool :=
  match l with Convolution1D _ _ _ _ _ _ _ => true | Dropout _ _ _ _ => false end.

Definition is_Dropout (l : Layer) : bool :=
  match l with Dropout _ _ _ _ => true | Convolution1D _ _ _ _ _ _ _ => false end.

(** [layer.subsample_length]; only convolutions have the attribute, the
    source reads it under the [isinstance] filter only. *)
Definition subsample_length (l : Layer) : nat :=
  match l with Convolution1D _ _ s _ _ _ _ => s | Dropout _ _ _ _ => 1 end.

Definition filter_length (l : Layer) : nat :=
  match l with Convolution1D _ w _ _ _ _ _ => w | Dropout _ _ _ _ => 0 end.

Definition layer_name (l : Layer) : string :=
  match l with Convolution1D _ _ _ _ n _ _ => n | Dropout _ _ n _ => n end.

Definition trainable (l : Layer) : bool :=
  match l with Convolution1D _ _ _ _ _ _ t => t | Dropout _ _ _ t => t end.

(** [layer.trainable = False] *)
Definition set_untrainable (l : Layer) : Layer :=
  match l with
  | Convolution1D n w s a nm d _ => Convolution1D n w s a nm d false
  | Dropout p d nm _ => Dropout p d nm false
  end.

(** The number of elements of the Python slice [l[:k]]: a negative
    bound counts from the end, every bound is clipped to the list. *)
Definition slice_to_length {A} (l : list A) (k : Z) : nat :=
  if (k <? 0)%Z then Z.to_nat (Z.max 0 (Z.of_nat (length l) + k))
  else Z.to_nat (Z.min k (Z.of_nat (length l))).

(** [for layer in layers[:k]: layer.trainable = False].  The slice holds
    the same layer objects as [layers], so the loop changes the first
    elements of [layers] themselves. *)
Definition freeze (k : Z) (layers : list Layer) : list Layer :=
  let n := slice_to_length layers k in
  (set_untrainable <$> take n layers) ++ drop n layers.

(** *** [create_predictive_net] *)

Section Build.
Variables (self_dropout : option float)
          (self_activation self_output_activation : string)
          (self_use_raw_wave_input : bool)
          (self_input_size_per_time_step : nat)
          (self_grapheme_set_size : nat)
          (self_frozen_layer_count : Z).

(** The inner function [convolution]; its defaults ([striding = 1],
    [activation = self.activation], [input_dim = None],
    [never_dropout = False]) are passed explicitly by the callers
    below. *)
Definition convolution (name : string) (filter_count filter_length : nat)
    (striding : nat) (activation : string) (input_dim : option nat)
    (never_dropout : bool) : list Layer :=
  (match self_dropout with
   | None => []
   | Some p =>
       if never_dropout then []
       else [Dropout p input_dim ("dropout_before_" +:+ name) true]
   end)
  ++ [Convolution1D filter_count filter_length striding activation name
                    input_dim true].

Definition main_filter_count : nat := 250.

Definition input_convolutions : list Layer :=
  let raw_wave_convolution_if_needed :=
    if self_use_raw_wave_input
    then convolution "wave_conv" main_filter_count 250 160 self_activation
                     (Some self_input_size_per_time_step) false
    else [] in
  raw_wave_convolution_if_needed ++
  convolution "striding_conv" main_filter_count 48 2 self_activation
              (if self_use_raw_wave_input then None
               else Some self_input_size_per_time_step) false.

(** [range(1, 8)] is [seq 1 7]. *)
Definition inner_convolutions : list Layer :=
  i ← seq 1 7;
  convolution ("inner_conv_" +:+ pretty i) main_filter_count 7 1
              self_activation None false.

Definition out_filter_count : nat := 2000.

Definition output_convolutions : list Layer :=
  conv ← [ convolution "big_conv_1" out_filter_count 32 1
                       self_activation None true;
           convolution "big_conv_2" out_filter_count 1 1
                       self_activation None true;
           convolution "output_conv" self_grapheme_set_size 1 1
                       self_output_activation None true ];
  conv.

(** The local [layers] before the freezing loop. *)
Definition unfrozen_layers : list Layer :=
  input_convolutions ++ inner_convolutions ++ output_convolutions.

(** The list handed to [Sequential]. *)
Definition create_predictive_net : list Layer :=
  freeze self_frozen_layer_count unfrozen_layers.
End Build.

(** Whether the layer just before position [i] is a dropout stage. *)
Definition preceded_by_dropout (layers : list Layer) (i : nat) : bool :=
  match i with
  | 0 => false
  | S j => match layers !! j with
           | Some d => is_Dropout d
           | None => false
           end
  end.

(** The last three layers of the stack: its output stage. *)
Definition output_stage (layers : list Layer) : list Layer :=
  drop (length layers - 3) layers.

(** [reduce(lambda x, y: x * y, [layer.subsample_length for layer in
    layers if isinstance(layer, Convolution1D)], 1)] *)
Definition stride_product (layers : list Layer) : nat :=
  fold_left (λ x y, x * y)
            (subsample_length <$> filter (λ l, is_Convolution1D l = true) layers)
            1.
End Layers.
Arguments Layer : clear implicits.

(** ** A state-and-exception monad for methods of one object

    A method reads and updates the attributes of [self] (the state [S])
    and returns or raises.  An exception leaves the attributes as they
    were when it was raised. *)

Definition M (S A : Type) : Type := S → result A * S.

#[global] Instance M_ret {S} : MRet (M S) := λ A a s, (inr a, s).

#[global] Instance M_bind {S} : MBind (M S) := λ A B k m s,
  match m s with
  | (inr a, s') => k a s'
  | (inl e, s') => (inl e, s')
  end.

Definition lift {S A} (r : result A) : M S A := λ s, (r, s).

(** A list comprehension whose element expression can raise and touch
    [self]: elements are evaluated left to right. *)
Fixpoint for_each {S A B} (f : A → M S B) (l : list A) : M S (list B) :=
  match l with
  | [] => mret []
  | x :: l' => y ← f x; ys ← for_each f l'; mret (y :: ys)
  end.

(** The [@lazy] decorator: the first successful evaluation is stored in
    the instance and returned by every later access; an evaluation that
    raises stores nothing. *)
Definition lazy {S A} (cached : S → option A) (store : A → S → S)
    (f : M S A) : M S A :=
  λ s, match cached s with
       | Some v => (inr v, s)
       | None =>
           match f s with
           | (inr v, s') => (inr v, store v s')
           | (inl e, s') => (inl e, s')
           end
       end.

(** Python's [a // b] on non-negative integers. *)
Definition floordiv (a b : nat) : result nat :=
  if b =? 0 then inl ZeroDivisionError else inr (a `div` b).

(** ** numpy arrays

    A two-dimensional array is its list of rows together with the row
    width ([shape[1]], which an array with no rows still has); a
    three-dimensional one is a list of such blocks. *)

Section Arrays.
Context {float : Type} (zero : float).

Record ndarray2 := {
  shape1 : nat;
  rows : list (list float)
}.

Definition shape0 (a : ndarray2) : nat := length (rows a).

(** Every row has the width the shape announces. *)
Definition well_formed (a : ndarray2) : Prop :=
  Forall (λ r, length r = shape1 a) (rows a).

Definition item2 (a : ndarray2) (t f : nat) : option float :=
  r ← rows a !! t; r !! f.

Record ndarray3 := {
  shape3 : nat * nat * nat;
  blocks : list (list (list float))
}.

Definition item3 (a : ndarray3) (i t f : nat) : option float :=
  b ← blocks a !! i; r ← b !! t; r !! f.

(** [zeros((b, t, w))] *)
Definition zeros (shape : nat * nat * nat) : ndarray3 :=
  let '(b, t, w) := shape in
  {| shape3 := shape;
     blocks := replicate b (replicate t (replicate w zero)) |}.

(** [max(l)]; raises on an empty list. *)
Definition py_max (l : list nat) : result nat :=
  match l with
  | [] => inl ValueError
  | x :: l' => inr (foldl Nat.max x l')
  end.

(** numpy's rule for assigning a source dimension to a target one. *)
Definition broadcastable (src tgt : nat) : bool :=
  (src =? tgt) || (src =? 1).

(** [input_batch[index, :source.shape[0], :source.shape[1]] = source].
    The slice bounds are clipped to the target; the source must
    broadcast to the clipped slice, else numpy raises [ValueError]. *)
Definition assign_prefix (batch : ndarray3) (index : nat)
    (source : ndarray2) : result ndarray3 :=
  let '(_, len, width) := shape3 batch in
  let t0 := shape0 source `min` len in
  let t1 := shape1 source `min` width in
  if broadcastable (shape0 source) t0 && broadcastable (shape1 source) t1
  then
    match blocks batch !! index with
    | None => inl IndexError
    | Some block =>
        let written :=
          zip_with (λ target_row source_row,
                      take t1 source_row ++ drop t1 target_row)
                   (take t0 block) (rows source) in
        inr {| shape3 := shape3 batch;
               blocks := <[index := written ++ drop t0 block]> (blocks batch) |}
    end
  else inl ValueError.

(** [for index, spectrogram in enumerate(spectrograms): ...], started
    at [index]. *)
Fixpoint assign_each (index : nat) (spectrograms : list ndarray2)
    (batch : ndarray3) : result ndarray3 :=
  match spectrograms with
  | [] => inr batch
  | spectrogram :: rest =>
      match assign_prefix batch index spectrogram with
      | inl e => inl e
      | inr batch' => assign_each (S index) rest batch'
      end
  end.

(** The block a spectrogram fills in a batch of time length [len] and
    width [width]: its rows cut or padded with zeros on the right,
    followed by rows of zeros. *)
Definition padded_block (len width : nat) (a : ndarray2)
    : list (list float) :=
  ((λ row, take width row ++ replicate (width - shape1 a) zero) <$> rows a)
  ++ replicate (len - shape0 a) (replicate width zero).

(** Whether the assignment of [a] into a batch of width [width] is
    accepted by numpy. *)
Definition fits (width : nat) (a : ndarray2) : bool :=
  broadcastable (shape1 a) (shape1 a `min` width).

(** [[s // ratio for s in lengths]] for a known [ratio]. *)
Fixpoint floordiv_each (ratio : nat) (lengths : list nat)
    : result (list nat) :=
  match lengths with
  | [] => inr []
  | s :: rest =>
      match floordiv s ratio with
      | inl e => inl e
      | inr q =>
          match floordiv_each ratio rest with
          | inl e => inl e
          | inr qs => inr (q :: qs)
          end
      end
  end.

(** What [_input_batch_and_prediction_lengths] returns when the ratio
    is known to be [ratio]: the same steps without the object. *)
Definition assemble (ratio : nat) (spectrograms : list ndarray2)
    : result (ndarray3 * list nat) :=
  match spectrograms with
  | [] => inl IndexError
  | first :: _ =>
      let input_lengths := shape0 <$> spectrograms in
      match floordiv_each ratio input_lengths with
      | inl e => inl e
      | inr prediction_lengths =>
          match py_max input_lengths with
          | inl e => inl e
          | inr longest =>
              match assign_each 0 spectrograms
                      (zeros (length spectrograms, longest, shape1 first)) with
              | inl e => inl e
              | inr input_batch => inr (input_batch, prediction_lengths)
              end
          end
      end
  end.
End Arrays.
Arguments ndarray2 : clear implicits.
Arguments ndarray3 : clear implicits.

(** ** The numbers of the ASG tables

    The tables are quotients of integers.  The code that builds them is
    the same for every reading of numpy's division of two integer
    elements, which is therefore a parameter of it.  Two readings are
    given: binary64, which is what numpy computes, and exact rationals,
    where a division by zero (numpy's [inf] or [nan]) is kept apart. *)

(** Exact quotients. *)
Inductive npfloat :=
| finite (q : Qc)
| not_finite.

Definition exact_divide (x d : Z) : npfloat :=
  if decide (d = 0%Z) then not_finite
  else finite (Qc_of_Z x / Qc_of_Z d)%Qc.

Definition np_add (x y : npfloat) : npfloat :=
  match x, y with
  | finite p, finite q => finite (p + q)%Qc
  | _, _ => not_finite
  end.

(** The sum of a vector of exact quotients. *)
Definition np_sum (l : list npfloat) : npfloat := foldr np_add (finite 0%Qc) l.

(** binary64: the integer is converted (exactly, below 2^53) and the
    quotient is rounded to nearest. *)
Definition float64_of_int (x : Z) : PrimFloat.float :=
  if (x <? 0)%Z
  then PrimFloat.opp (PrimFloat.of_uint63 (Uint63.of_Z (- x)))
  else PrimFloat.of_uint63 (Uint63.of_Z x).

Definition float64_divide (x d : Z) : PrimFloat.float :=
  PrimFloat.div (float64_of_int x) (float64_of_int d).

(** The sum of a binary64 vector, element after element as numpy's
    [sum(axis=0)] adds the rows of a matrix. *)
Definition float64_sum (l : list PrimFloat.float) : PrimFloat.float :=
  foldl PrimFloat.add (float64_of_int 0) l.

(** The rational a binary64 number is, if it is finite. *)
Definition float64_value (x : PrimFloat.float) : option Q :=
  match FloatOps.Prim2SF x with
  | SpecFloat.S754_zero _ => Some 0%Q
  | SpecFloat.S754_finite s m e =>
      let q := (inject_Z (Z.pos m)
                * (if (e <? 0)%Z then / inject_Z (2 ^ (- e))
                   else inject_Z (2 ^ e)))%Q in
      Some (if s then (- q)%Q else q)
  | _ => None
  end.

(** The sum of the rationals that the elements of a binary64 vector
    are: what any order of summation would give without rounding. *)
Definition float64_exact_sum (l : list PrimFloat.float) : option Q :=
  foldr (λ x acc, match float64_value x, acc with
                  | Some q, Some a => Some (Qred (q + a))
                  | _, _ => None
                  end) (Some 0%Q) l.

(** [a.sum()] of an integer vector. *)
Definition int_sum (l : list Z) : Z := foldr Z.add 0%Z l.

(** [a.sum(axis=0)] of an integer matrix whose rows have [width]
    elements: one sum per column. *)
Definition sum_axis0 (width : nat) (a : list (list Z)) : list Z :=
  foldl (zip_with Z.add) (replicate width 0%Z) a.

(** [a[:, j]] *)
Definition column {A} (d : A) (j : nat) (a : list (list A)) : list A :=
  (λ row, default d (row !! j)) <$> a.

Section DefaultProbabilities.
Context {num : Type}.
(** [x / d] on two integer array elements (true division). *)
Variable true_divide : Z → Z → num.
(** The draws of [numpy.random.randint(1, 15, shape)], by position. *)
Variable randint2 : nat → nat → Z.
Variable randint1 : nat → Z.

Definition _default_asg_transition_probabilities (grapheme_set_size : nat)
    : list (list num) :=
  let n := grapheme_set_size + 1 in
  let asg_transition_probabilities :=
    (λ i, randint2 i <$> seq 0 n) <$> seq 0 n in
  let zero_array := replicate n 0%Z in
  (* asg_transition_probabilities[0] = zero_array *)
  let asg_transition_probabilities :=
    <[0 := zero_array]> asg_transition_probabilities in
  (* asg_transition_probabilities[:, 0] = zero_array *)
  let asg_transition_probabilities :=
    zip_with (λ row z, <[0 := z]> row) asg_transition_probabilities zero_array in
  let transition_norms :=
    [1%Z] ++ sum_axis0 grapheme_set_size (drop 1 <$> asg_transition_probabilities) in
  (λ row, zip_with true_divide row transition_norms)
    <$> asg_transition_probabilities.

Definition _default_asg_initial_probabilities (grapheme_set_size : nat)
    : list num :=
  let asg_initial_probabilities := randint1 <$> seq 0 (grapheme_set_size + 1) in
  let asg_initial_probabilities := <[0 := 0%Z]> asg_initial_probabilities in
  let total := int_sum asg_initial_probabilities in
  (λ x, true_divide x total) <$> asg_initial_probabilities.
End DefaultProbabilities.

(** ** The [Wav2Letter] object *)

Section Wav2Letter.
Context {float : Type} (zero : float).

(** What [net.py] uses of a grapheme encoding (module
    [grapheme_enconding] is not part of the sources). *)
Record GraphemeEncoding := {
  grapheme_set_size : nat;
  encode_label_batch : list string → list (list nat);
  decode_prediction_batch : ndarray3 float → list nat → list string
}.

(** Symbolic Keras tensors of the loss graph. *)
Inductive Tensor :=
| Input (name : string)
| Sequential_call (layers : list (Layer float)) (x : Tensor)
| ctc_batch_cost (y_true y_pred input_length label_length : Tensor).

(** [Model(input=..., output=...)], with the name of its loss layer. *)
Record Model := {
  model_input : list Tensor;
  model_output : list Tensor;
  loss_layer_name : string
}.

(** The attributes of an instance; the last two hold the values of the
    [@lazy] properties once they are computed.  The optimizer and the
    stored weights are opaque Keras objects and are left out. *)
Record Wav2Letter := {
  grapheme_encoding : GraphemeEncoding;
  asg_transition_probabilities : list (list float);
  asg_initial_probabilities : list float;
  use_asg : bool;
  frozen_layer_count : Z;
  output_activation : string;
  activation : string;
  use_raw_wave_input : bool;
  input_size_per_time_step : nat;
  load_epoch : option nat;
  dropout : option float;
  predictive_net : list (Layer float);
  lazy_input_to_prediction_length_ratio : option nat;
  lazy_loss_net : option Model
}.

Definition store_input_to_prediction_length_ratio (v : nat)
    (self : Wav2Letter) : Wav2Letter :=
  {| grapheme_encoding := grapheme_encoding self;
     asg_transition_probabilities := asg_transition_probabilities self;
     asg_initial_probabilities := asg_initial_probabilities self;
     use_asg := use_asg self;
     frozen_layer_count := frozen_layer_count self;
     output_activation := output_activation self;
     activation := activation self;
     use_raw_wave_input := use_raw_wave_input self;
     input_size_per_time_step := input_size_per_time_step self;
     load_epoch := load_epoch self;
     dropout := dropout self;
     predictive_net := predictive_net self;
     lazy_input_to_prediction_length_ratio := Some v;
     lazy_loss_net := lazy_loss_net self |}.

Definition store_loss_net (v : Model) (self : Wav2Letter) : Wav2Letter :=
  {| grapheme_encoding := grapheme_encoding self;
     asg_transition_probabilities := asg_transition_probabilities self;
     asg_initial_probabilities := asg_initial_probabilities self;
     use_asg := use_asg self;
     frozen_layer_count := frozen_layer_count self;
     output_activation := output_activation self;
     activation := activation self;
     use_raw_wave_input := use_raw_wave_input self;
     input_size_per_time_step := input_size_per_time_step self;
     load_epoch := load_epoch self;
     dropout := dropout self;
     predictive_net := predictive_net self;
     lazy_input_to_prediction_length_ratio :=
       lazy_input_to_prediction_length_ratio self;
     lazy_loss_net := Some v |}.

Section Init.
(** The two encodings of module [grapheme_enconding], numpy's division
    of two integer elements, and the draws of numpy's random
    generator. *)
Variables CtcGraphemeEncoding AsgGraphemeEncoding
  : list Ascii.ascii → GraphemeEncoding.
Variable true_divide : Z → Z → float.
Variable randint2 : nat → nat → Z.
Variable randint1 : nat → Z.

(** [__init__]; [load_model_from_directory] only loads weights. *)
Definition __init__ (input_size_per_time_step : nat)
    (allowed_characters : list Ascii.ascii) (use_raw_wave_input : bool)
    (activation output_activation : string) (dropout : option float)
    (load_epoch : option nat) (frozen_layer_count : Z) (use_asg : bool)
    (asg_transition_probabilities : option (list (list float)))
    (asg_initial_probabilities : option (list float)) : Wav2Letter :=
  let grapheme_encoding :=
    if use_asg then AsgGraphemeEncoding allowed_characters
    else CtcGraphemeEncoding allowed_characters in
  let grapheme_set_size := grapheme_set_size grapheme_encoding in
  {| grapheme_encoding := grapheme_encoding;
     asg_transition_probabilities :=
       match asg_transition_probabilities with
       | None =>
             _default_asg_transition_probabilities true_divide randint2
               grapheme_set_size
       | Some p => p
       end;
     asg_initial_probabilities :=
       match asg_initial_probabilities with
       | None =>
             _default_asg_initial_probabilities true_divide randint1
               grapheme_set_size
       | Some p => p
       end;
     use_asg := use_asg;
     frozen_layer_count := frozen_layer_count;
     output_activation := output_activation;
     activation := activation;
     use_raw_wave_input := use_raw_wave_input;
     input_size_per_time_step := input_size_per_time_step;
     load_epoch := load_epoch;
     dropout := dropout;
     predictive_net :=
       create_predictive_net dropout activation output_activation
         use_raw_wave_input input_size_per_time_step grapheme_set_size
         frozen_layer_count;
     lazy_input_to_prediction_length_ratio := None;
     lazy_loss_net := None |}.
End Init.

Definition get_self : M Wav2Letter Wav2Letter := λ self, (inr self, self).

(** [@lazy def input_to_prediction_length_ratio(self)] *)
Definition input_to_prediction_length_ratio : M Wav2Letter nat :=
  lazy lazy_input_to_prediction_length_ratio
       store_input_to_prediction_length_ratio
       (self ← get_self; mret (stride_product (predictive_net self))).

(** The call of a [Lambda] layer runs its function on the inputs. *)
Definition _asg_lambda (args : Tensor * Tensor * Tensor * Tensor)
    (transition_probabilities : option (list (list float)))
    (initial_probabilities : option (list float)) : result Tensor :=
  inl (NotImplementedError "ASG is not yet implemented.").

Definition _ctc_lambda (args : Tensor * Tensor * Tensor * Tensor)
    : result Tensor :=
  let '(prediction_batch, label_batch, prediction_lengths, label_lengths) :=
    args in
  inr (ctc_batch_cost label_batch prediction_batch prediction_lengths
                      label_lengths).

(** The body of [loss_net]: the loss layer is called on the outputs of
    the predictive net and the three other inputs while the graph is
    built. *)
Definition build_loss_net (self : Wav2Letter) : result Model :=
  let input_batch := Input "input_batch" in
  let label_batch := Input "label_batch" in
  let prediction_lengths := Input "prediction_lenghts" in
  let label_lengths := Input "label_lenghts" in
  let args := (Sequential_call (predictive_net self) input_batch,
               label_batch, prediction_lengths, label_lengths) in
  match (if use_asg self
         then _asg_lambda args (Some (asg_transition_probabilities self))
                          (Some (asg_initial_probabilities self))
         else _ctc_lambda args) with
  | inl e => inl e
  | inr loss =>
      inr {| model_input :=
               [input_batch; label_batch; prediction_lengths; label_lengths];
             model_output := [loss];
             loss_layer_name :=
               if use_asg self then "asg_loss" else "ctc_loss" |}
  end.

(** [@lazy def loss_net(self)] *)
Definition loss_net : M Wav2Letter Model :=
  lazy lazy_loss_net store_loss_net
       (self ← get_self; lift (build_loss_net self)).

(** [_input_batch_and_prediction_lengths] *)
Definition _input_batch_and_prediction_lengths
    (spectrograms : list (ndarray2 float))
    : M Wav2Letter (ndarray3 float * list nat) :=
  let batch_size := length spectrograms in
  first ← lift (match spectrograms !! 0 with
                | Some s => inr s
                | None => inl IndexError
                end);
  let input_size_per_time_step := shape1 first in
  let input_lengths := shape0 <$> spectrograms in
  prediction_lengths ←
    for_each (λ s, ratio ← input_to_prediction_length_ratio;
                   lift (floordiv s ratio)) input_lengths;
  longest ← lift (py_max input_lengths);
  input_batch ←
    lift (assign_each 0 spectrograms
            (zeros zero (batch_size, longest, input_size_per_time_step)));
  mret (input_batch, prediction_lengths).

(** The ratio an access to the lazy property yields in state [self]:
    the stored value, or else the one computed from the layers. *)
Definition effective_ratio (self : Wav2Letter) : nat :=
  match lazy_input_to_prediction_length_ratio self with
  | Some v => v
  | None => stride_product (predictive_net self)
  end.

(** The object after an access to the lazy ratio. *)
Definition with_ratio (self : Wav2Letter) : Wav2Letter :=
  match lazy_input_to_prediction_length_ratio self with
  | Some _ => self
  | None =>
      store_input_to_prediction_length_ratio
        (stride_product (predictive_net self)) self
  end.

(** An object as [__init__] and the methods leave it: its layers are
    those of [create_predictive_net] for its attributes, and a stored
    ratio is the ratio of these layers. *)
Definition constructed (self : Wav2Letter) : Prop :=
  predictive_net self =
    create_predictive_net (dropout self) (activation self)
      (output_activation self) (use_raw_wave_input self)
      (input_size_per_time_step self)
      (grapheme_set_size (grapheme_encoding self))
      (frozen_layer_count self)
  ∧ (∀ v, lazy_input_to_prediction_length_ratio self = Some v →
          v = stride_product (predictive_net self))
  ∧ (∀ net, lazy_loss_net self = Some net → build_loss_net self = inr net).

(** A batch that [_input_batch_and_prediction_lengths] accepts: it is
    not empty, its spectrograms are well formed and none is refused by
    the assignment into a tensor of the width of the first. *)
Definition accepted (spectrograms : list (ndarray2 float)) : Prop :=
  match spectrograms with
  | [] => False
  | first :: _ =>
      Forall well_formed spectrograms
      ∧ Forall (λ s, fits (shape1 first) s = true) spectrograms
  end.

(** An example of a batch: [x.spectrogram()] and [x.label()]. *)
Record LabeledSpectrogram := {
  spectrogram : ndarray2 float;
  label : string
}.

(** The dictionary of [_training_input_dictionary], one field per key.
    The two length columns have shape (batch size, 1) and are kept as
    the lists they are reshaped from. *)
Record InputDict := {
  dict_input_batch : ndarray3 float;
  dict_prediction_lengths : list nat;
  dict_label_batch : list (list nat);
  dict_label_lengths : list nat;
  keras_learning_phase : bool
}.

Definition _training_input_dictionary
    (labeled_spectrogram_batch : list LabeledSpectrogram)
    : M Wav2Letter InputDict :=
  let spectrograms := spectrogram <$> labeled_spectrogram_batch in
  let labels := label <$> labeled_spectrogram_batch in
  '(input_batch, prediction_lengths) ←
    _input_batch_and_prediction_lengths spectrograms;
  self ← get_self;
  mret {| dict_input_batch := input_batch;
          dict_prediction_lengths := prediction_lengths;
          dict_label_batch :=
            encode_label_batch (grapheme_encoding self) labels;
          dict_label_lengths := String.length <$> labels;
          keras_learning_phase := true |}.

(** One item of [_generator]: the input dictionary and the dummy
    labels [zeros((batch_size,))].  What the generator prints is not
    part of the model. *)
Definition _generator_item
    (labeled_spectrogram_batch : list LabeledSpectrogram)
    : M Wav2Letter (InputDict * list float) :=
  let batch_size := length labeled_spectrogram_batch in
  let dummy_labels_for_dummy_loss_function := replicate batch_size zero in
  training_input_dictionary ←
    _training_input_dictionary labeled_spectrogram_batch;
  mret (training_input_dictionary, dummy_labels_for_dummy_loss_function).

Section Keras.
(** What Keras and numpy compute and [net.py] only passes on: the
    forward pass of a layer stack in a learning phase, the loss of
    the loss net on one batch, and a weighted average. *)
Variable forward_pass
  : list (Layer float) → bool → ndarray3 float → ndarray3 float.
Variable test_on_batch : Model → InputDict → float.
Variable average : list float → list nat → result float.

(** [prediction_batch]; [prediction_phase_flag] is [0.]. *)
Definition prediction_batch (self : Wav2Letter)
    (input_batch : ndarray3 float) : ndarray3 float :=
  forward_pass (predictive_net self) false input_batch.

Definition predict (spectrograms : list (ndarray2 float))
    : M Wav2Letter (list string) :=
  '(input_batch, prediction_lengths) ←
    _input_batch_and_prediction_lengths spectrograms;
  self ← get_self;
  mret (decode_prediction_batch (grapheme_encoding self)
          (prediction_batch self input_batch) prediction_lengths).

Definition predict_single (spectrogram : ndarray2 float)
    : M Wav2Letter string :=
  predictions ← predict [spectrogram];
  lift (match predictions !! 0 with
        | Some p => inr p
        | None => inl IndexError
        end).

(** Keras' [evaluate_generator(generator, val_samples)]: items are
    drawn and evaluated until [val_samples] samples are processed;
    the result is the average of the batch losses weighted by the
    batch sizes.  [upcoming] is what the generator still has to
    give in the current round of [cycle(batches)]; [loss] asks for
    the samples of exactly one round, so the end of the round is
    not passed (see [evaluate_generator_one_round] below). *)
Fixpoint evaluate_generator (net : Model)
    (upcoming : list (list LabeledSpectrogram))
    (processed val_samples : nat) (all_outs : list float)
    (weights : list nat) : M Wav2Letter float :=
  if val_samples <=? processed
  then lift (average all_outs weights)
  else
    match upcoming with
    | [] => lift (average all_outs weights)
    | batch :: rest =>
        item ← _generator_item batch;
        let outs := test_on_batch net (fst item) in
        evaluate_generator net rest (processed + length (snd item))
          val_samples (all_outs ++ [outs]) (weights ++ [length (snd item)])
    end.

(** [loss]: the value of [evaluate_generator] is not returned. *)
Definition loss (labeled_spectrogram_batches : list (list LabeledSpectrogram))
    : M Wav2Letter (PyValue float) :=
  let batches := labeled_spectrogram_batches in
  let sample_count := length (batch ← batches; batch) in
  net ← loss_net;
  _ ← evaluate_generator net batches 0 sample_count [] [];
  mret PyNone.
End Keras.
End Wav2Letter.

(** ** Example objects

    Tensor elements are rationals here; the encoding is a stand-in with
    29 graphemes that encodes every label as the empty sequence. *)

Definition example_encoding (allowed_characters : list Ascii.ascii)
    : @GraphemeEncoding Qc :=
  {| grapheme_set_size := 29;
     encode_label_batch := λ labels, (λ _, []) <$> labels;
     decode_prediction_batch := λ _ lengths, (λ _, EmptyString) <$> lengths |}.

Definition example_divide (x d : Z) : Qc := (Qc_of_Z x / Qc_of_Z d)%Qc.

Definition example_randint2 (i j : nat) : Z := 1 + Z.of_nat ((i + 2 * j) `mod` 14).
Definition example_randint1 (i : nat) : Z := 1 + Z.of_nat (i `mod` 14).

(** [Wav2Letter(1)], [Wav2Letter(1, use_asg=True)] and
    [Wav2Letter(1, dropout=0.5, frozen_layer_count=2)]. *)
Definition example_net : @Wav2Letter Qc :=
  __init__ example_encoding example_encoding example_divide
           example_randint2 example_randint1
           1 [] false "relu" "softmax" None None 0 false None None.

Definition example_asg_net : @Wav2Letter Qc :=
  __init__ example_encoding example_encoding example_divide
           example_randint2 example_randint1
           1 [] false "relu" "softmax" None None 0 true None None.

Definition example_dropout_net : @Wav2Letter Qc :=
  __init__ example_encoding example_encoding example_divide
           example_randint2 example_randint1
           1 [] false "relu" "softmax" (Some (Qc_of_Z 1 / Qc_of_Z 2)%Qc)
           None 2 false None None.

(** A spectrogram of [n] time steps and width 1. *)
Definition example_spectrogram (n : nat) : ndarray2 Qc :=
  {| shape1 := 1; rows := replicate n [1%Qc] |}.

Definition example_labeled (n : nat) : @LabeledSpectrogram Qc :=
  {| spectrogram := example_spectrogram n; label := "a" |}.

Definition example_test_on_batch (net : @Model Qc) (d : @InputDict Qc) : Qc :=
  Qc_of_Z (Z.of_nat (length (dict_prediction_lengths d))).

(** [numpy.average(outs, weights=weights)] *)
Definition example_average (outs : list Qc) (weights : list nat) : result Qc :=
  let total := sum_list weights in
  if total =? 0 then inl ZeroDivisionError
  else inr (foldr Qcplus 0%Qc
              (zip_with (λ o w, o * Qc_of_Z (Z.of_nat w))%Qc outs weights)
            / Qc_of_Z (Z.of_nat total))%Qc.

(** The default table in binary64 for ten graphemes when every draw is
    1, and the sum of its column 1. *)
Definition example_ones (i j : nat) : Z := 1.

Definition example_float64_table : list (list PrimFloat.float) :=
  _default_asg_transition_probabilities float64_divide example_ones 10.

Definition example_float64_column_sum : PrimFloat.float :=
  float64_sum (column (float64_of_int 0) 1 example_float64_table).

(** ** More of [net.py]: attributes of layers, checkpoints, training *)

Section MoreLayers.
Context {float : Type}.

(** [layer.nb_filter], [layer.activation] and [layer.input_dim] as far
    as [net.py] sets them. *)
Definition nb_filter (l : Layer float) : nat :=
  match l with Convolution1D n _ _ _ _ _ _ => n | Dropout _ _ _ _ => 0 end.

Definition layer_activation (l : Layer float) : option string :=
  match l with
  | Convolution1D _ _ _ a _ _ _ => Some a
  | Dropout _ _ _ _ => None
  end.

Definition layer_input_dim (l : Layer float) : option nat :=
  match l with
  | Convolution1D _ _ _ _ _ d _ => d
  | Dropout _ d _ _ => d
  end.

(** What a convolution is configured with: name, number of filters,
    filter width, stride, activation and input size. *)
Definition convolution_settings (l : Layer float)
    : string * nat * nat * nat * option string * option nat :=
  (layer_name l, nb_filter l, filter_length l, subsample_length l,
   layer_activation l, layer_input_dim l).
End MoreLayers.

(** [model_file_name]: ["weights-epoch{}.h5".format(epoch)]. *)
Definition model_file_name (epoch : Z) : string :=
  "weights-epoch" +:+ pretty epoch +:+ ".h5".

(** Python's [a % b] on integers: the sign of the result is that of
    [b]. *)
Definition py_mod (a b : Z) : result Z :=
  if decide (b = 0%Z) then inl ZeroDivisionError else inr (a `mod` b)%Z.

(** What [on_epoch_end] does to the world, in order.  A path is the list
    of its parts; [net_directory / name] adds a part. *)
Inductive effect :=
| CallCallback
| Makedirs (directory : list string)
| SaveWeights (path : list string).

(** [CustomCallback.on_epoch_end] of [create_callbacks], for the
    arguments of the enclosing call.  [callback] is how the call of the
    callback ends.  The result is what was done and how the method
    ends. *)
Definition on_epoch_end (callback : result ()) (net_directory : list string)
    (callback_step save_step : Z) (epoch : Z) : list effect * result () :=
  match py_mod epoch callback_step with
  | inl e => ([], inl e)
  | inr r =>
      let called := bool_decide (r = 0%Z) in
      let done := if called then [CallCallback] else [] in
      match (if called then callback else inr ()) with
      | inl e => (done, inl e)
      | inr _ =>
          match py_mod epoch save_step with
          | inl e => (done, inl e)
          | inr r' =>
              if bool_decide (r' = 0%Z) && bool_decide (0 < epoch)%Z
              then (done ++ [Makedirs net_directory;
                             SaveWeights (net_directory ++ [model_file_name epoch])],
                    inr ())
              else (done, inr ())
          end
      end
  end.

(** The line feed of Python's ["\n"]. *)
Definition newline : string := String (Ascii.ascii_of_nat 10) EmptyString.

(** ['Expected:  "{}"\nPredicted: "{}"'.format(expected, predicted)] *)
Definition expectation_vs_prediction (pair : string * string) : string :=
  "Expected:  " +:+ String (Ascii.ascii_of_nat 34) (fst pair)
  +:+ String (Ascii.ascii_of_nat 34) newline
  +:+ "Predicted: " +:+ String (Ascii.ascii_of_nat 34) (snd pair)
  +:+ String (Ascii.ascii_of_nat 34) EmptyString.

Section Train.
Context {float : Type} (zero : float).
Variable forward_pass
  : list (Layer float) → bool → ndarray3 float → ndarray3 float.

(** The inner function of [train]; the text is what it prints. *)
Definition print_expectations_vs_prediction
    (test_labeled_spectrogram_batch : list (@LabeledSpectrogram float))
    : M (@Wav2Letter float) string :=
  let expected := label <$> test_labeled_spectrogram_batch in
  predicted ←
    predict zero forward_pass (spectrogram <$> test_labeled_spectrogram_batch);
  mret (String.concat (newline +:+ newline)
          (expectation_vs_prediction <$> zip expected predicted)).

(** The call [self.loss_net.fit_generator(...)] that [train] ends with:
    Keras takes over from there. *)
Record FitGeneratorCall := {
  fit_model : @Model float;
  fit_batches : list (list (@LabeledSpectrogram float));
  fit_nb_epoch : N;
  fit_samples_per_epoch : nat;
  fit_initial_epoch : nat
}.

(** [train], up to the call of [fit_generator]: the text printed before
    training and the call that is made. *)
Definition train
    (labeled_spectrogram_batches : list (list (@LabeledSpectrogram float)))
    (test_labeled_spectrogram_batch : list (@LabeledSpectrogram float))
    (samples_per_epoch : nat)
    : M (@Wav2Letter float) (string * FitGeneratorCall) :=
  printed ← print_expectations_vs_prediction test_labeled_spectrogram_batch;
  net ← loss_net;
  self ← get_self;
  mret (printed,
        {| fit_model := net;
           fit_batches := labeled_spectrogram_batches;
           fit_nb_epoch := 100000000;
           fit_samples_per_epoch := samples_per_epoch;
           fit_initial_epoch :=
             match load_epoch self with
             | Some epoch => epoch
             | None => 0
             end |}).
End Train.

(** ** [corpus_provider.py]

    A path is the list of its parts, its [name] the last of them.  An
    example is known by what the code reads of it: its
    [audio_directory] and its [label] (class [LabeledExample] is not
    part of the sources). *)

Definition path_name (path : list string) : string := default "" (last path).

(** [s.endswith(suffix)] *)
Definition endswith (s suffix : string) : bool :=
  bool_decide (String.list_ascii_of_string suffix
                 `suffix_of` String.list_ascii_of_string s).

Section Texts.
Context {char : Type} `{EqDecision char}.

(** [text.replace(old, "")] on the characters of a text: the
    occurrences of [old] are found from the left and do not overlap;
    [skip] characters of an occurrence are still to be dropped.  An
    empty [old] changes nothing. *)
Fixpoint replace_by_nothing_from (old : list char) (skip : nat)
    (text : list char) : list char :=
  match text with
  | [] => []
  | c :: rest =>
      match skip with
      | S k => replace_by_nothing_from old k rest
      | 0 =>
          if bool_decide (old ≠ [] ∧ old `prefix_of` text)
          then replace_by_nothing_from old (length old - 1) rest
          else c :: replace_by_nothing_from old 0 rest
      end
  end.

Definition replace_by_nothing (old text : list char) : list char :=
  replace_by_nothing_from old 0 text.

(** [_remove_tags_to_ignore]: [reduce(lambda text, tag:
    text.replace(tag, ""), self.tags_to_ignore, text)]. *)
Definition _remove_tags_to_ignore (tags_to_ignore : list (list char))
    (text : list char) : list char :=
  foldl (λ text tag, replace_by_nothing tag text) text tags_to_ignore.

(** [is_allowed]: [all(c in self.allowed_characters for c in label)]. *)
Definition is_allowed (allowed_characters : list char) (label : list char)
    : bool :=
  forallb (λ c, bool_decide (c ∈ allowed_characters)) label.

(** [_tar_members_root_directory_skipped_if_specified], on the names of
    the members. *)
Definition _tar_members_root_directory_skipped_if_specified
    (root_compressed_directory_name_to_skip : option (list char))
    (member_names : list (list char)) : list (list char) :=
  match root_compressed_directory_name_to_skip with
  | Some root => replace_by_nothing root <$> member_names
  | None => member_names
  end.
End Texts.

Section Splits.
Context {Example : Type}.
Variable audio_directory : Example → list string.

(** [TrainingTestSplit.by_directory(test_directory_name)] *)
Definition by_directory (test_directory_name : string)
    (examples : list Example) : list Example * list Example :=
  let training_examples :=
    filter (λ e, path_name (audio_directory e) = test_directory_name)
           examples in
  let test_examples :=
    filter (λ e, path_name (audio_directory e) ≠ test_directory_name)
           examples in
  (training_examples, test_examples).

(** What [randomly_by_directory] takes from elsewhere: the keys of
    [tools.group(examples, key=...)], [random.sample] after
    [random.seed(42)], and [round(train_set_share * n)]. *)
Variable group_keys : list Example → list (list string).
Variable sample : list (list string) → Z → result (list (list string)).
Variable round_share : nat → Z.

(** [TrainingTestSplit.randomly_by_directory(train_set_share)] *)
Definition randomly_by_directory (examples : list Example)
    : result (list Example * list Example) :=
  let directories := group_keys examples in
  match sample directories (round_share (length directories)) with
  | inl e => inl e
  | inr sampled =>
      let training_directories : gset (list string) := list_to_set sampled in
      let training_examples :=
        filter (λ e, audio_directory e ∈ training_directories) examples in
      let test_examples :=
        filter (λ e, audio_directory e ∉ training_directories) examples in
      inr (training_examples, test_examples)
  end.

Variable label_of : Example → string.

(** [duplicate_label_count]: [len(self.examples) - len(set(e.label for
    e in self.examples))]. *)
Definition duplicate_label_count (examples : list Example) : Z :=
  Z.of_nat (length examples)
  - Z.of_nat (size (list_to_set (label_of <$> examples) : gset string)).

(** [empty_examples] *)
Definition empty_examples (examples : list Example) : list Example :=
  filter (λ e, label_of e = EmptyString) examples.
End Splits.

Section Labels.
(** What [_extract_labels_by_id] takes from elsewhere: the lines of a
    file, and Python's [str.split()] and [str.lower()]. *)
Variable readlines : list string → list string.
Variable split : string → list string.
Variable lower : string → string.

(** The loop over the lines of one file. *)
Fixpoint add_lines (lines : list string) (labels_by_id : gmap string string)
    : result (gmap string string) :=
  match lines with
  | [] => inr labels_by_id
  | line :: rest =>
      let parts := split line in
      match parts !! 0 with
      | None => inl IndexError
      | Some id =>
          let label := String.concat " " (drop 1 parts) in
          add_lines rest (<[id := lower label]> labels_by_id)
      end
  end.

(** The loop over the label files. *)
Fixpoint add_files (label_files : list (list string))
    (labels_by_id : gmap string string) : result (gmap string string) :=
  match label_files with
  | [] => inr labels_by_id
  | label_file :: rest =>
      match add_lines (readlines label_file) labels_by_id with
      | inl e => inl e
      | inr labels_by_id' => add_files rest labels_by_id'
      end
  end.

(** [_extract_labels_by_id] *)
Definition _extract_labels_by_id (files : list (list string))
    : result (gmap string string) :=
  let label_files :=
    filter (λ file, endswith (path_name file) ".txt" = true) files in
  add_files label_files ∅.
End Labels.

(** * Properties *)

(** ** The layer list *)

Section LayerFacts.
Context {float : Type}.
Implicit Types (l : Layer float) (layers : list (Layer float)).

Lemma is_Dropout_set_untrainable l :
  is_Dropout (set_untrainable l) = is_Dropout l.
Proof. by destruct l. Qed.

Lemma is_Convolution1D_set_untrainable l :
  is_Convolution1D (set_untrainable l) = is_Convolution1D l.
Proof. by destruct l. Qed.

Lemma subsample_length_set_untrainable l :
  subsample_length (set_untrainable l) = subsample_length l.
Proof. by destruct l. Qed.

Lemma filter_length_set_untrainable l :
  filter_length (set_untrainable l) = filter_length l.
Proof. by destruct l. Qed.

Lemma trainable_set_untrainable l : trainable (set_untrainable l) = false.
Proof. by destruct l. Qed.

Lemma preceded_by_dropout_kinds layers i :
  preceded_by_dropout layers i =
  match i with
  | 0 => false
  | S j => default false ((is_Dropout <$> layers) !! j)
  end.
Proof.
  destruct i as [|j]; [done|]. simpl. rewrite list_lookup_fmap.
  by destruct (layers !! j).
Qed.

Lemma Forall_flag (f : Layer float → bool) (b : bool) layers :
  Forall (λ l, f l = b) layers ↔ Forall (λ x, x = b) (f <$> layers).
Proof. by rewrite Forall_fmap. Qed.

Lemma slice_to_length_le {A} (xs : list A) k :
  slice_to_length xs k ≤ length xs.
Proof. unfold slice_to_length. case_match; lia. Qed.


Lemma length_freeze k layers : length (freeze k layers) = length layers.
Proof.
  unfold freeze. rewrite length_app, length_fmap, length_take, length_drop.
  pose proof (slice_to_length_le layers k). lia.
Qed.

(** Freezing changes flags in place: position [i] holds the layer it
    held before, with its flag cleared when [i] is inside the slice. *)
Lemma lookup_freeze k layers i :
  freeze k layers !! i =
  (λ l, if decide (i < slice_to_length layers k) then set_untrainable l else l)
    <$> layers !! i.
Proof.
  unfold freeze. set (n := slice_to_length layers k).
  pose proof (slice_to_length_le layers k) as Hn. fold n in Hn.
  destruct (decide (i < n)) as [Hi|Hi].
  - rewrite lookup_app_l by (rewrite length_fmap, length_take; lia).
    by rewrite list_lookup_fmap, lookup_take_lt.
  - rewrite lookup_app_r by (rewrite length_fmap, length_take; lia).
    rewrite length_fmap, length_take, lookup_drop.
    replace (n + (i - n `min` length layers)) with i by lia.
    by destruct (layers !! i).
Qed.

(** A projection of the layers that ignores the flag is not changed by
    freezing. *)
Lemma fmap_freeze {B} (f : Layer float → B) k layers :
  (∀ l, f (set_untrainable l) = f l) →
  f <$> freeze k layers = f <$> layers.
Proof.
  intros Hf. apply list_eq; intros i.
  rewrite !list_lookup_fmap, lookup_freeze.
  destruct (layers !! i) as [l|]; simpl; [|done].
  case_decide; by rewrite ?Hf.
Qed.

Lemma filter_Convolution1D_set_untrainable layers :
  subsample_length
    <$> filter (λ l, is_Convolution1D l = true) (set_untrainable <$> layers)
  = subsample_length <$> filter (λ l, is_Convolution1D l = true) layers.
Proof.
  induction layers as [|l layers IH]; [done|].
  rewrite fmap_cons, !filter_cons, is_Convolution1D_set_untrainable.
  destruct (decide (is_Convolution1D l = true)); [|done].
  by rewrite !fmap_cons, subsample_length_set_untrainable, IH.
Qed.

Lemma filter_Convolution1D_freeze k layers :
  subsample_length <$> filter (λ l, is_Convolution1D l = true) (freeze k layers)
  = subsample_length <$> filter (λ l, is_Convolution1D l = true) layers.
Proof.
  unfold freeze. set (n := slice_to_length layers k).
  rewrite <-(take_drop n layers) at 3.
  by rewrite !filter_app, !fmap_app, filter_Convolution1D_set_untrainable.
Qed.

Lemma stride_product_freeze k layers :
  stride_product (freeze k layers) = stride_product layers.
Proof. unfold stride_product. by rewrite filter_Convolution1D_freeze. Qed.

(** Python's [reduce] goes from the left; for a product that is the
    product of the list. *)
Lemma fold_left_mul (xs : list nat) (a : nat) :
  fold_left (λ x y, x * y) xs a = a * foldr Nat.mul 1 xs.
Proof.
  revert a. induction xs as [|x xs IH]; intros a; simpl; [lia|].
  rewrite IH. lia.
Qed.
End LayerFacts.

Section NetFacts.
Context {float : Type}.
Implicit Types (l : Layer float) (layers : list (Layer float)).
Variables (dropout : option float) (activation output_activation : string)
          (use_raw_wave_input : bool)
          (input_size_per_time_step grapheme_set_size : nat).

Local Abbreviation unfrozen :=
  (unfrozen_layers dropout activation output_activation use_raw_wave_input
                   input_size_per_time_step grapheme_set_size).
Local Abbreviation net k :=
  (create_predictive_net dropout activation output_activation
     use_raw_wave_input input_size_per_time_step grapheme_set_size k).

Local Ltac enumerate_layers :=
  let L := fresh "L" in
  let HL := fresh "HL" in
  remember unfrozen as L eqn:HL;
  destruct use_raw_wave_input, dropout; vm_compute in HL; subst L.

Lemma length_unfrozen :
  length unfrozen =
  (if use_raw_wave_input then 12 else 11)
  + (if dropout is Some _ then (if use_raw_wave_input then 9 else 8) else 0).
Proof. enumerate_layers; reflexivity. Qed.

Lemma unfrozen_trainable : Forall (λ l, trainable l = true) unfrozen.
Proof. enumerate_layers; repeat constructor. Qed.

Lemma unfrozen_strides :
  subsample_length <$> filter (λ l, is_Convolution1D l = true) unfrozen
  = (if use_raw_wave_input then [160] else []) ++ 2 :: replicate 10 1.
Proof. enumerate_layers; reflexivity. Qed.

Lemma stride_product_net k :
  stride_product (net k) = if use_raw_wave_input then 320 else 2.
Proof.
  unfold create_predictive_net. rewrite stride_product_freeze.
  unfold stride_product. rewrite unfrozen_strides.
  by destruct use_raw_wave_input.
Qed.

Lemma unfrozen_wide_filter_stride :
  Forall (λ l, filter_length l = 32 → subsample_length l = 1) unfrozen.
Proof.
  enumerate_layers;
    repeat (apply Forall_cons; split;
            [simpl; intros ?; (reflexivity || discriminate)|]);
    by apply Forall_nil.
Qed.

Lemma unfrozen_output_stage :
  filter_length <$> output_stage unfrozen = [32; 1; 1]
  ∧ Forall (λ l, is_Convolution1D l = true) (output_stage unfrozen).
Proof.
  unfold output_stage. enumerate_layers; (split; [reflexivity|repeat constructor]).
Qed.

Lemma unfrozen_no_dropout :
  dropout = None → Forall (λ l, is_Dropout l = false) unfrozen.
Proof.
  intros Hd. enumerate_layers; try discriminate; repeat constructor.
Qed.

Lemma unfrozen_dropout_placement i c :
  unfrozen !! i = Some c → is_Convolution1D c = true →
  preceded_by_dropout unfrozen i
  = if dropout is Some _ then bool_decide (i + 3 < length unfrozen) else false.
Proof.
  intros Hi Hc.
  assert ((is_Dropout <$> unfrozen) !! i = Some false) as Hk.
  { rewrite list_lookup_fmap, Hi. by destruct c. }
  rewrite preceded_by_dropout_kinds, length_unfrozen. clear Hi Hc.
  remember (is_Dropout <$> unfrozen) as ks eqn:Hks.
  destruct use_raw_wave_input, dropout; vm_compute in Hks; subst ks;
    repeat (simpl in Hk;
            lazymatch type of Hk with
            | None = Some _ => fail
            | _ => destruct i as [|i]; [done || discriminate|]
            end);
    discriminate.
Qed.

Lemma preceded_by_dropout_freeze k layers i :
  preceded_by_dropout (freeze k layers) i = preceded_by_dropout layers i.
Proof.
  rewrite !preceded_by_dropout_kinds.
  by rewrite (fmap_freeze is_Dropout) by apply is_Dropout_set_untrainable.
Qed.

Lemma lookup_freeze_Some k layers i c :
  freeze k layers !! i = Some c →
  ∃ c0, layers !! i = Some c0
        ∧ c = if decide (i < slice_to_length layers k)
              then set_untrainable c0 else c0.
Proof.
  rewrite lookup_freeze. destruct (layers !! i) as [c0|]; [|done].
  intros [= <-]. eauto.
Qed.

(** C7.  With a dropout rate configured, a convolution of the built
    network is immediately preceded by a dropout stage exactly when it
    is not one of the last three layers; those three are the
    convolutions of filter widths 32, 1 and 1 (the output stage).
    Without a dropout rate the network has no dropout stage at all. *)
Theorem dropout_placement (k : Z) :
  let layers := net k in
  (∀ i c, layers !! i = Some c → is_Convolution1D c = true →
     preceded_by_dropout layers i
     = if dropout is Some _ then bool_decide (i + 3 < length layers) else false)
  ∧ filter_length <$> output_stage layers = [32; 1; 1]
  ∧ Forall (λ l, is_Convolution1D l = true) (output_stage layers)
  ∧ (dropout = None → Forall (λ l, is_Dropout l = false) layers).
Proof.
  simpl. unfold create_predictive_net.
  destruct unfrozen_output_stage as [Hw Hc].
  repeat split.
  - intros i c Hi Hconv.
    apply lookup_freeze_Some in Hi as (c0 & Hi & ->).
    rewrite preceded_by_dropout_freeze, length_freeze.
    apply (unfrozen_dropout_placement i c0 Hi).
    case_decide; by rewrite ?is_Convolution1D_set_untrainable in Hconv.
  - unfold output_stage in *. rewrite length_freeze, fmap_drop.
    rewrite (fmap_freeze filter_length) by apply filter_length_set_untrainable.
    by rewrite <-fmap_drop.
  - unfold output_stage in *. rewrite length_freeze.
    apply Forall_flag. rewrite fmap_drop.
    rewrite (fmap_freeze is_Convolution1D)
      by apply is_Convolution1D_set_untrainable.
    rewrite <-fmap_drop. by apply Forall_flag.
  - intros Hd. apply Forall_flag.
    rewrite (fmap_freeze is_Dropout) by apply is_Dropout_set_untrainable.
    apply Forall_flag. by apply unfrozen_no_dropout.
Qed.


(** A negative [frozen_layer_count] is a slice bound counted from the
    end: all layers but the last [-k] are frozen. *)
Lemma trainable_net_negative (k : Z) (i : nat) l :
  (k < 0)%Z → net k !! i = Some l →
  trainable l = bool_decide (Z.of_nat (length unfrozen) + k ≤ Z.of_nat i)%Z.
Proof.
  intros Hk Hi. unfold create_predictive_net in Hi.
  apply lookup_freeze_Some in Hi as (c0 & Hi & ->).
  unfold slice_to_length. destruct (Z.ltb_spec k 0); [|lia].
  pose proof unfrozen_trainable as Ht.
  rewrite Forall_lookup in Ht. specialize (Ht i c0 Hi). simpl in Ht.
  case_decide.
  - rewrite trainable_set_untrainable. symmetry. apply bool_decide_eq_false. lia.
  - rewrite Ht. symmetry. apply bool_decide_eq_true. lia.
Qed.



(** The number of convolutions before the output stage. *)
Local Abbreviation inner_count := (if use_raw_wave_input then 9 else 8).

(** The position of the [j]-th convolution in the layer list. *)
Local Abbreviation position j :=
  (if dropout is Some _
   then (if (j <? inner_count)%nat then (2 * j + 1)%nat
         else (j + inner_count)%nat)
   else j%nat).




End NetFacts.

(** ** Batch assembly *)

Section ArrayFacts.
Context {float : Type} (zero : float).
Implicit Types (a s : ndarray2 float) (batch : ndarray3 float).

Lemma py_max_cons (x : nat) (l : list nat) :
  py_max (x :: l) = inr (max_list (x :: l)).
Proof.
  simpl. f_equal. revert x.
  induction l as [|y l IH]; intros x; simpl; [lia|].
  rewrite IH. simpl. lia.
Qed.

Lemma shape0_le_max_list (spectrograms : list (ndarray2 float)) s :
  s ∈ spectrograms → shape0 s ≤ max_list (shape0 <$> spectrograms).
Proof.
  intros Hs. apply max_list_elem_of_le. apply list_elem_of_fmap. eauto.
Qed.

Lemma fits_le width s : shape1 s ≤ width → fits width s = true.
Proof.
  intros Hw. unfold fits, broadcastable.
  replace (shape1 s `min` width) with (shape1 s) by lia.
  by rewrite Nat.eqb_refl.
Qed.

(** One assignment into a block that is still all zeros. *)
Lemma assign_prefix_zero_block batch b len width index s :
  shape3 batch = (b, len, width) →
  blocks batch !! index = Some (replicate len (replicate width zero)) →
  well_formed s → shape0 s ≤ len → fits width s = true →
  assign_prefix batch index s
  = inr {| shape3 := shape3 batch;
           blocks := <[index := padded_block zero len width s]> (blocks batch) |}.
Proof.
  intros Hshape Hblock Hwf Hlen Hfits. unfold assign_prefix.
  rewrite Hshape, Hblock.
  replace (shape0 s `min` len) with (shape0 s) by lia.
  unfold fits in Hfits. unfold broadcastable at 1.
  rewrite Nat.eqb_refl, Hfits. simpl. do 3 f_equal.
  unfold padded_block. f_equal.
  - rewrite take_replicate.
    replace (shape0 s `min` len) with (shape0 s) by lia.
    rewrite zip_with_replicate_l by done.
    apply Forall_fmap_ext_1. eapply Forall_impl; [exact Hwf|].
    intros row Hrow. simpl in *.
    rewrite drop_replicate. f_equal.
    + destruct (decide (shape1 s ≤ width)).
      * replace (shape1 s `min` width) with (shape1 s) by lia.
        by rewrite !take_ge by lia.
      * replace (shape1 s `min` width) with width by lia. done.
    + f_equal. lia.
  - by rewrite drop_replicate.
Qed.

(** The loop over the spectrograms, started on zeros behind the
    blocks [done] that are already filled. *)
Lemma assign_each_zeros b len width (done rest : list (ndarray2 float))
    (filled : list (list (list float))) :
  length filled = length done →
  Forall well_formed rest →
  Forall (λ s, shape0 s ≤ len) rest →
  Forall (λ s, fits width s = true) rest →
  assign_each (length done) rest
    {| shape3 := (b, len, width);
       blocks := filled ++ replicate (length rest)
                             (replicate len (replicate width zero)) |}
  = inr {| shape3 := (b, len, width);
           blocks := filled ++ (padded_block zero len width <$> rest) |}.
Proof.
  revert done filled.
  induction rest as [|s rest IH]; intros done filled Hfilled Hwf Hlen Hfits.
  - done.
  - apply Forall_cons in Hwf as [Hwf1 Hwf].
    apply Forall_cons in Hlen as [Hlen1 Hlen].
    apply Forall_cons in Hfits as [Hfits1 Hfits].
    cbn [assign_each].
    erewrite (assign_prefix_zero_block _ b len width); [|done|..|done|done|done].
    2:{ cbn [blocks]. rewrite lookup_app_r by lia.
        replace (length done - length filled) with 0 by lia. done. }
    cbn [shape3 blocks].
    rewrite insert_app_r_alt by lia.
    replace (length done - length filled) with 0 by lia.
    cbn [length replicate]. simpl insert.
    replace (filled ++ padded_block zero len width s
               :: replicate (length rest) (replicate len (replicate width zero)))
      with ((filled ++ [padded_block zero len width s])
              ++ replicate (length rest) (replicate len (replicate width zero)))
      by (by rewrite <-app_assoc).
    specialize (IH (done ++ [s]) (filled ++ [padded_block zero len width s])).
    rewrite !length_app in IH. simpl in IH.
    replace (length done + 1) with (S (length done)) in IH by lia.
    rewrite IH by (done || lia).
    by rewrite <-app_assoc.
Qed.

Lemma assign_each_from_zeros (spectrograms : list (ndarray2 float)) len width :
  Forall well_formed spectrograms →
  Forall (λ s, shape0 s ≤ len) spectrograms →
  Forall (λ s, fits width s = true) spectrograms →
  assign_each 0 spectrograms (zeros zero (length spectrograms, len, width))
  = inr {| shape3 := (length spectrograms, len, width);
           blocks := padded_block zero len width <$> spectrograms |}.
Proof.
  intros Hwf Hlen Hfits.
  by apply (assign_each_zeros (length spectrograms) len width [] spectrograms []).
Qed.

Lemma assign_prefix_shape batch index s batch' :
  assign_prefix batch index s = inr batch' →
  shape3 batch' = shape3 batch.
Proof.
  unfold assign_prefix. destruct (shape3 batch) as [[b len] width] eqn:Hs.
  repeat case_match; intros; simplify_eq; done.
Qed.

Lemma assign_each_shape index spectrograms batch batch' :
  assign_each index spectrograms batch = inr batch' →
  shape3 batch' = shape3 batch.
Proof.
  revert index batch.
  induction spectrograms as [|s rest IH]; intros index batch; simpl.
  - by intros [= <-].
  - destruct (assign_prefix _ _ _) as [e|b1] eqn:Hb1; [done|].
    intros Hrest. rewrite (IH _ _ Hrest).
    by apply assign_prefix_shape in Hb1.
Qed.

Lemma floordiv_each_pos ratio (lengths : list nat) :
  ratio ≠ 0 →
  floordiv_each ratio lengths = inr ((λ n, n `div` ratio) <$> lengths).
Proof.
  intros Hr. induction lengths as [|n rest IH]; [done|].
  simpl. unfold floordiv. destruct (Nat.eqb_spec ratio 0); [done|].
  by rewrite IH.
Qed.

(** The result of the assembly for lists that numpy accepts. *)
Lemma assemble_fitting ratio (first : ndarray2 float) rest :
  let spectrograms := first :: rest in
  ratio ≠ 0 →
  Forall well_formed spectrograms →
  Forall (λ s, fits (shape1 first) s = true) spectrograms →
  assemble zero ratio spectrograms
  = inr ({| shape3 := (length spectrograms,
                       max_list (shape0 <$> spectrograms), shape1 first);
            blocks := padded_block zero (max_list (shape0 <$> spectrograms))
                                   (shape1 first) <$> spectrograms |},
         (λ s, shape0 s `div` ratio) <$> spectrograms).
Proof.
  intros spectrograms Hr Hwf Hfits.
  assert (Forall (λ s, shape0 s ≤ max_list (shape0 <$> spectrograms))
                 spectrograms) as Hlen.
  { apply Forall_forall. intros s Hs. by apply shape0_le_max_list. }
  pose proof (assign_each_from_zeros spectrograms _ _ Hwf Hlen Hfits) as Hrun.
  unfold assemble, spectrograms at 1. lazy iota beta zeta.
  fold spectrograms.
  rewrite floordiv_each_pos by done.
  unfold spectrograms at 1. rewrite fmap_cons, py_max_cons.
  rewrite <-fmap_cons. fold spectrograms.
  by rewrite Hrun, <-list_fmap_compose.
Qed.

(** A returned tensor has the width of the first spectrogram. *)
Lemma assemble_width ratio (first : ndarray2 float) rest batch lengths :
  assemble zero ratio (first :: rest) = inr (batch, lengths) →
  shape3 batch = (S (length rest), max_list (shape0 <$> first :: rest),
                  shape1 first).
Proof.
  unfold assemble.
  destruct (floordiv_each _ _) as [e|ls]; [done|].
  rewrite fmap_cons, py_max_cons.
  destruct (assign_each _ _ _) as [e|b] eqn:Hb; [done|].
  intros [= <- <-]. by apply assign_each_shape in Hb.
Qed.

Lemma item2_is_Some s t f :
  well_formed s → t < shape0 s → f < shape1 s → is_Some (item2 s t f).
Proof.
  intros Hwf Ht Hf. unfold item2.
  destruct (lookup_lt_is_Some_2 (rows s) t Ht) as [row Hrow].
  rewrite Hrow. simpl. apply lookup_lt_is_Some_2.
  unfold well_formed in Hwf.
  rewrite Forall_lookup in Hwf. by rewrite (Hwf t row Hrow).
Qed.

(** Inside the spectrogram the block holds the spectrogram. *)
Lemma padded_block_inside len width s t f :
  well_formed s → shape1 s ≤ width → t < shape0 s → f < shape1 s →
  (row ← padded_block zero len width s !! t; row !! f) = item2 s t f.
Proof.
  intros Hwf Hw Ht Hf. unfold padded_block, item2.
  rewrite lookup_app_l by (by rewrite length_fmap).
  rewrite list_lookup_fmap.
  destruct (lookup_lt_is_Some_2 (rows s) t Ht) as [row Hrow].
  rewrite Hrow. simpl.
  unfold well_formed in Hwf.
  rewrite Forall_lookup in Hwf. specialize (Hwf t row Hrow). simpl in Hwf.
  rewrite take_ge by lia. by rewrite lookup_app_l by lia.
Qed.

(** Outside of it the block holds zeros. *)
Lemma padded_block_outside len width s t f :
  well_formed s → shape1 s ≤ width → shape0 s ≤ len →
  t < len → f < width → shape0 s ≤ t ∨ shape1 s ≤ f →
  (row ← padded_block zero len width s !! t; row !! f) = Some zero.
Proof.
  intros Hwf Hw Hl Ht Hf Hout. unfold padded_block.
  destruct (decide (t < shape0 s)) as [Hin|Hin].
  - rewrite lookup_app_l by (by rewrite length_fmap).
    rewrite list_lookup_fmap.
    destruct (lookup_lt_is_Some_2 (rows s) t Hin) as [row Hrow].
    rewrite Hrow. simpl.
    unfold well_formed in Hwf.
  rewrite Forall_lookup in Hwf. specialize (Hwf t row Hrow). simpl in Hwf.
    rewrite take_ge by lia. rewrite lookup_app_r by lia.
    apply lookup_replicate_2. lia.
  - rewrite lookup_app_r by (rewrite length_fmap; unfold shape0 in *; lia).
    rewrite length_fmap. rewrite lookup_replicate_2 by (unfold shape0 in *; lia).
    simpl. by apply lookup_replicate_2.
Qed.
End ArrayFacts.

(** ** The methods of the object *)

Section ObjectFacts.
Context {float : Type} (zero : float).
Implicit Types (self : @Wav2Letter float).

Lemma bind_run {S A B} (m : M S A) (k : A → M S B) (s : S) :
  (m ≫= k) s = match m s with
               | (inr a, s') => k a s'
               | (inl e, s') => (inl e, s')
               end.
Proof. done. Qed.

Lemma lift_run {S A} (r : result A) (s : S) : lift r s = (r, s).
Proof. done. Qed.

Lemma lazy_ratio_with_ratio self :
  lazy_input_to_prediction_length_ratio (with_ratio self)
  = Some (effective_ratio self).
Proof.
  unfold with_ratio, effective_ratio.
  by destruct (lazy_input_to_prediction_length_ratio self) eqn:Hc.
Qed.

Lemma effective_ratio_with_ratio self :
  effective_ratio (with_ratio self) = effective_ratio self.
Proof.
  unfold effective_ratio at 1. by rewrite lazy_ratio_with_ratio.
Qed.

Lemma with_ratio_idemp self : with_ratio (with_ratio self) = with_ratio self.
Proof.
  unfold with_ratio at 1. by rewrite lazy_ratio_with_ratio.
Qed.

(** An access to the lazy ratio. *)
Lemma input_to_prediction_length_ratio_run self :
  input_to_prediction_length_ratio self
  = (inr (effective_ratio self), with_ratio self).
Proof.
  unfold input_to_prediction_length_ratio, lazy, with_ratio, effective_ratio.
  by destruct (lazy_input_to_prediction_length_ratio self).
Qed.

Lemma prediction_lengths_cached self v (lengths : list nat) :
  lazy_input_to_prediction_length_ratio self = Some v →
  for_each (λ s, ratio ← input_to_prediction_length_ratio;
                 lift (floordiv s ratio)) lengths self
  = (floordiv_each v lengths, self).
Proof.
  intros Hc. induction lengths as [|n rest IH]; [done|].
  cbn [for_each floordiv_each].
  rewrite bind_run, bind_run, input_to_prediction_length_ratio_run.
  unfold with_ratio, effective_ratio. rewrite Hc, lift_run.
  destruct (floordiv n v) as [e|q]; [done|].
  rewrite bind_run, IH.
  by destruct (floordiv_each v rest).
Qed.

Lemma prediction_lengths_run self (lengths : list nat) :
  lengths ≠ [] →
  for_each (λ s, ratio ← input_to_prediction_length_ratio;
                 lift (floordiv s ratio)) lengths self
  = (floordiv_each (effective_ratio self) lengths, with_ratio self).
Proof.
  destruct lengths as [|n rest]; [done|]. intros _.
  cbn [for_each floordiv_each].
  rewrite bind_run, bind_run, input_to_prediction_length_ratio_run, lift_run.
  destruct (floordiv n (effective_ratio self)) as [e|q]; [done|].
  rewrite bind_run.
  rewrite (prediction_lengths_cached _ (effective_ratio self))
    by apply lazy_ratio_with_ratio.
  by destruct (floordiv_each _ rest).
Qed.

(** The method returns what [assemble] gives for the ratio of the
    object, and leaves the ratio stored unless the list is empty. *)
Lemma _input_batch_and_prediction_lengths_run self
    (spectrograms : list (ndarray2 float)) :
  _input_batch_and_prediction_lengths zero spectrograms self
  = (assemble zero (effective_ratio self) spectrograms,
     match spectrograms with [] => self | _ :: _ => with_ratio self end).
Proof.
  unfold _input_batch_and_prediction_lengths.
  destruct spectrograms as [|first rest]; [done|].
  rewrite bind_run, lift_run. cbn [lookup list_lookup].
  rewrite bind_run, prediction_lengths_run by done.
  unfold assemble.
  destruct (floordiv_each _ _) as [e|lengths]; [done|].
  rewrite bind_run, lift_run.
  destruct (py_max _) as [e|longest]; [done|].
  rewrite bind_run, lift_run.
  by destruct (assign_each _ _ _).
Qed.

Lemma constructed_effective_ratio self :
  constructed self →
  effective_ratio self = stride_product (predictive_net self).
Proof.
  intros (_ & Hc & _). unfold effective_ratio.
  destruct (lazy_input_to_prediction_length_ratio self) as [v|]; [|done].
  by apply Hc.
Qed.

Lemma constructed_stride_product self :
  constructed self →
  stride_product (predictive_net self)
  = if use_raw_wave_input self then 320 else 2.
Proof. intros (-> & _). apply stride_product_net. Qed.

Lemma constructed_ratio_pos self :
  constructed self → effective_ratio self ≠ 0.
Proof.
  intros Hc.
  rewrite constructed_effective_ratio, constructed_stride_product by done.
  by destruct (use_raw_wave_input self).
Qed.

Lemma constructed_with_ratio self :
  constructed self → constructed (with_ratio self).
Proof.
  intros Hself. pose proof Hself as (Hnet & Hratio & Hloss).
  unfold with_ratio.
  destruct (lazy_input_to_prediction_length_ratio self) eqn:Hc; [done|].
  split_and!; [done| |done].
  simpl. by intros v [= <-].
Qed.

Lemma constructed_init
    (ctc asg : list Ascii.ascii → @GraphemeEncoding float)
    divide randint2 randint1 input_size allowed raw
    act out_act drop epoch frozen use_asg tp ip :
  constructed (__init__ ctc asg divide randint2 randint1 input_size allowed
                        raw act out_act drop epoch frozen use_asg tp ip).
Proof. by split_and!. Qed.

(** The loss net is built on the first access and kept. *)
Lemma loss_net_run self :
  constructed self →
  loss_net self
  = match build_loss_net self with
    | inl e => (inl e, self)
    | inr net =>
        (inr net,
         if lazy_loss_net self is Some _ then self else store_loss_net net self)
    end.
Proof.
  intros (_ & _ & Hloss). unfold loss_net, lazy.
  destruct (lazy_loss_net self) as [net|] eqn:Hc.
  - by rewrite (Hloss net).
  - rewrite bind_run. unfold get_self. rewrite lift_run.
    by destruct (build_loss_net self).
Qed.

Lemma constructed_store_loss_net self net :
  constructed self → build_loss_net self = inr net →
  constructed (store_loss_net net self).
Proof.
  intros (Hnet & Hratio & Hloss) Hb. split_and!; [done|done|].
  simpl. by intros net' [= <-].
Qed.

Lemma accepted_run self (spectrograms : list (ndarray2 float)) :
  constructed self → accepted spectrograms →
  _input_batch_and_prediction_lengths zero spectrograms self
  = (inr ({| shape3 := (length spectrograms,
                        max_list (shape0 <$> spectrograms),
                        from_option shape1 0 (head spectrograms));
             blocks :=
               padded_block zero (max_list (shape0 <$> spectrograms))
                 (from_option shape1 0 (head spectrograms))
                 <$> spectrograms |},
          (λ s, shape0 s `div` stride_product (predictive_net self))
            <$> spectrograms),
     with_ratio self).
Proof.
  intros Hself Hacc. rewrite _input_batch_and_prediction_lengths_run.
  destruct spectrograms as [|first rest]; [done|].
  destruct Hacc as [Hwf Hfits].
  rewrite assemble_fitting by (done || by apply constructed_ratio_pos).
  by rewrite constructed_effective_ratio.
Qed.

(** C2.  The total stride the object exposes is the product of the
    strides of the convolutional layers of its network, and for every
    accepted list of spectrograms the method returns, for each example,
    its true length integer-divided by that product. *)
Theorem total_stride self :
  constructed self →
  let total :=
    foldr Nat.mul 1
      (subsample_length
         <$> filter (λ l, is_Convolution1D l = true) (predictive_net self)) in
  fst (input_to_prediction_length_ratio self) = inr total
  ∧ ∀ spectrograms : list (ndarray2 float),
      accepted spectrograms →
      ∃ input_batch,
        fst (_input_batch_and_prediction_lengths zero spectrograms self)
        = inr (input_batch, (λ s, shape0 s `div` total) <$> spectrograms).
Proof.
  intros Hself total.
  assert (stride_product (predictive_net self) = total) as Htotal.
  { unfold stride_product, total. rewrite fold_left_mul. lia. }
  split.
  - rewrite input_to_prediction_length_ratio_run. simpl.
    by rewrite constructed_effective_ratio, Htotal.
  - intros spectrograms Hacc.
    rewrite accepted_run by done. rewrite Htotal. eauto.
Qed.

(** C3, amended.  The network built for spectrogram input has eleven
    convolutions with strides 2, 1, ..., 1 (the one of filter width 32
    has stride 1), so its total stride is 2 and a feature length of 640
    gives the expected output length 320.  A layer list with the
    strides 2, 1, 1, 1, 1, 1, 1, 1, 1, 32, 1, 1 would have the product
    64, and 640 integer-divided by it is 10. *)
Theorem spectrogram_net_stride self :
  constructed self → use_raw_wave_input self = false →
  subsample_length
    <$> filter (λ l, is_Convolution1D l = true) (predictive_net self)
  = [2; 1; 1; 1; 1; 1; 1; 1; 1; 1; 1]
  ∧ (∀ l, l ∈ predictive_net self → filter_length l = 32 →
          subsample_length l = 1)
  ∧ fst (input_to_prediction_length_ratio self) = inr 2
  ∧ (∀ s : ndarray2 float, well_formed s → shape0 s = 640 →
       ∃ input_batch,
         fst (_input_batch_and_prediction_lengths zero [s] self)
         = inr (input_batch, [320]))
  ∧ (∀ layers : list (Layer float),
       subsample_length <$> filter (λ l, is_Convolution1D l = true) layers
       = [2; 1; 1; 1; 1; 1; 1; 1; 1; 32; 1; 1] →
       stride_product layers = 64
       ∧ floordiv 640 (stride_product layers) = inr 10).
Proof.
  intros Hself Hraw.
  pose proof (constructed_stride_product self Hself) as Hprod.
  rewrite Hraw in Hprod.
  destruct Hself as (Hnet & Hratio & Hloss).
  assert (constructed self) as Hself by done.
  split_and!.
  - rewrite Hnet. unfold create_predictive_net.
    by rewrite filter_Convolution1D_freeze, unfrozen_strides, Hraw.
  - intros l Hl Hw. rewrite Hnet in Hl. unfold create_predictive_net in Hl.
    apply list_elem_of_lookup in Hl as [i Hi].
    apply lookup_freeze_Some in Hi as (c0 & Hi & ->).
    apply list_elem_of_lookup_2 in Hi.
    pose proof (unfrozen_wide_filter_stride (dropout self) (activation self)
                  (output_activation self) (use_raw_wave_input self)
                  (input_size_per_time_step self)
                  (grapheme_set_size (grapheme_encoding self))) as Hall.
    rewrite Forall_forall in Hall. specialize (Hall c0 Hi).
    case_decide;
      rewrite ?filter_length_set_untrainable,
              ?subsample_length_set_untrainable in *; auto.
  - rewrite input_to_prediction_length_ratio_run. simpl.
    by rewrite constructed_effective_ratio, Hprod.
  - intros s Hwf Hlen.
    rewrite accepted_run; [|done|].
    + simpl. rewrite Hprod, Hlen. eauto.
    + split; [by constructor|]. constructor; [|done]. by apply fits_le.
  - intros layers Hstrides. unfold stride_product. by rewrite Hstrides.
Qed.

(** C4, amended.  For every non-empty list of well-formed spectrograms
    none of which is wider than the first, the method returns a tensor
    of shape (batch size, longest length, width of the first) that
    holds each spectrogram in the prefix of its own block and zeros
    elsewhere, together with the expected prediction lengths: each true
    length integer-divided by the total stride. *)
Theorem batch_assembly self (first : ndarray2 float) rest :
  constructed self →
  Forall well_formed (first :: rest) →
  Forall (λ s, shape1 s ≤ shape1 first) (first :: rest) →
  let spectrograms := first :: rest in
  let longest := max_list (shape0 <$> spectrograms) in
  ∃ input_batch,
    fst (_input_batch_and_prediction_lengths zero spectrograms self)
    = inr (input_batch,
           (λ s, shape0 s `div` stride_product (predictive_net self))
             <$> spectrograms)
    ∧ shape3 input_batch = (length spectrograms, longest, shape1 first)
    ∧ ∀ i s, spectrograms !! i = Some s →
        (∀ t f, t < shape0 s → f < shape1 s →
           is_Some (item2 s t f)
           ∧ item3 input_batch i t f = item2 s t f)
        ∧ (∀ t f, t < longest → f < shape1 first →
             shape0 s ≤ t ∨ shape1 s ≤ f →
             item3 input_batch i t f = Some zero).
Proof.
  intros Hself Hwf Hwidth spectrograms longest.
  assert (accepted spectrograms) as Hacc.
  { split; [done|]. eapply Forall_impl; [exact Hwidth|].
    intros s Hs. by apply fits_le. }
  rewrite accepted_run by done. cbn [fst head from_option].
  eexists. split; [done|]. split; [done|].
  intros i s Hi. unfold item3. cbn [blocks].
  rewrite list_lookup_fmap, Hi. cbn [fmap option_fmap option_map mbind option_bind].
  rewrite Forall_lookup in Hwf. specialize (Hwf i s Hi).
  rewrite Forall_lookup in Hwidth. specialize (Hwidth i s Hi).
  simpl in Hwidth.
  assert (shape0 s ≤ longest) as Hlen.
  { apply shape0_le_max_list. by eapply list_elem_of_lookup_2. }
  split.
  - intros t f Ht Hf. split; [by apply item2_is_Some|].
    by apply padded_block_inside.
  - intros t f Ht Hf Hout. by apply padded_block_outside.
Qed.

(** C9.  Calling the method a second time on the same list of
    spectrograms, on the object as the first call left it, returns
    what the first call returned: the same tensor and the same lengths
    (or the same exception), and the object stays as it is. *)
Theorem assembly_repeatable self (spectrograms : list (ndarray2 float)) :
  let first_call :=
    _input_batch_and_prediction_lengths zero spectrograms self in
  let second_call :=
    _input_batch_and_prediction_lengths zero spectrograms (snd first_call) in
  fst second_call = fst first_call ∧ snd second_call = snd first_call.
Proof.
  simpl. rewrite !_input_batch_and_prediction_lengths_run. simpl.
  destruct spectrograms as [|first rest]; [done|].
  by rewrite effective_ratio_with_ratio, with_ratio_idemp.
Qed.
End ObjectFacts.

(** ** Prediction and loss *)

Section LossFacts.
Context {float : Type} (zero : float).
Variable forward_pass
  : list (Layer float) → bool → ndarray3 float → ndarray3 float.
Variable test_on_batch : @Model float → @InputDict float → float.
Variable average : list float → list nat → result float.
Implicit Types (self : @Wav2Letter float).

Local Abbreviation not_implemented :=
  (NotImplementedError "ASG is not yet implemented.").

Lemma predict_run self (spectrograms : list (ndarray2 float)) :
  predict zero forward_pass spectrograms self
  = (match assemble zero (effective_ratio self) spectrograms with
     | inl e => inl e
     | inr (input_batch, prediction_lengths) =>
         inr (decode_prediction_batch (grapheme_encoding self)
                (forward_pass (predictive_net self) false input_batch)
                prediction_lengths)
     end,
     match spectrograms with [] => self | _ :: _ => with_ratio self end).
Proof.
  unfold predict.
  rewrite bind_run, _input_batch_and_prediction_lengths_run.
  destruct (assemble _ _ _) as [e|[input_batch lengths]]; [done|].
  rewrite bind_run. unfold get_self, prediction_batch.
  destruct spectrograms as [|first rest]; [done|].
  unfold with_ratio.
  by destruct (lazy_input_to_prediction_length_ratio self).
Qed.

(** C10.  On the empty list the method raises (the first element is
    indexed; the maximum of no lengths would raise as well), and so does
    [predict].  On a non-empty list a returned
    tensor has the width of the first spectrogram, and a tensor is
    returned, and predictions are made, whenever the list is
    accepted. *)
Theorem assembly_needs_input self :
  fst (_input_batch_and_prediction_lengths zero [] self) = inl IndexError
  ∧ py_max [] = inl ValueError
  ∧ fst (predict zero forward_pass [] self) = inl IndexError
  ∧ (∀ (first : ndarray2 float) rest input_batch lengths,
       fst (_input_batch_and_prediction_lengths zero (first :: rest) self)
       = inr (input_batch, lengths) →
       shape3 input_batch
       = (S (length rest), max_list (shape0 <$> first :: rest), shape1 first))
  ∧ (∀ (first : ndarray2 float) rest,
       constructed self → accepted (first :: rest) →
       (∃ input_batch lengths,
          fst (_input_batch_and_prediction_lengths zero (first :: rest) self)
          = inr (input_batch, lengths)
          ∧ shape3 input_batch
            = (S (length rest), max_list (shape0 <$> first :: rest),
               shape1 first))
       ∧ ∃ predictions,
           fst (predict zero forward_pass (first :: rest) self)
           = inr predictions).
Proof.
  split_and!.
  - done.
  - done.
  - done.
  - intros first rest input_batch lengths.
    rewrite _input_batch_and_prediction_lengths_run. simpl.
    apply assemble_width.
  - intros first rest Hself Hacc. split.
    + rewrite accepted_run by done. simpl. eauto.
    + rewrite predict_run.
      destruct Hacc as [Hwf Hfits].
      rewrite assemble_fitting by (done || by apply constructed_ratio_pos).
      simpl. eauto.
Qed.

Lemma asg_build_loss_net self :
  use_asg self = true → build_loss_net self = inl not_implemented.
Proof. intros Hasg. unfold build_loss_net. by rewrite Hasg. Qed.


Lemma loss_run_raised self batches e :
  loss_net self = (inl e, self) →
  loss zero test_on_batch average batches self = (inl e, self).
Proof. intros Hnet. unfold loss. by rewrite bind_run, Hnet. Qed.

(** C1.  With ASG enabled the ASG lambda raises [NotImplementedError]
    whatever it is given; building the loss net calls it and raises,
    so does every access to the loss net, and so does [loss] on every
    input: no loss value is returned. *)
Theorem asg_loss_not_implemented self :
  constructed self → use_asg self = true →
  (∀ args transition_probabilities initial_probabilities,
     @_asg_lambda float args transition_probabilities initial_probabilities
     = inl not_implemented)
  ∧ loss_net self = (inl not_implemented, self)
  ∧ ∀ batches,
      loss zero test_on_batch average batches self
      = (inl not_implemented, self).
Proof.
  intros Hself Hasg.
  assert (loss_net self = (inl not_implemented, self)) as Hnet.
  { rewrite loss_net_run by done. by rewrite asg_build_loss_net. }
  split_and!; [done|done|].
  intros batches. by apply loss_run_raised.
Qed.

(** The dictionary that [_training_input_dictionary] makes of an
    accepted batch; it depends on the object through its network and
    its encoding only. *)
Local Abbreviation dictionary self batch :=
  {| dict_input_batch :=
       {| shape3 := (length (spectrogram <$> batch),
                     max_list (shape0 <$> (spectrogram <$> batch)),
                     from_option shape1 0 (head (spectrogram <$> batch)));
          blocks :=
            padded_block zero (max_list (shape0 <$> (spectrogram <$> batch)))
              (from_option shape1 0 (head (spectrogram <$> batch)))
              <$> (spectrogram <$> batch) |};
     dict_prediction_lengths :=
       (λ s, shape0 s `div` stride_product (predictive_net self))
         <$> (spectrogram <$> batch);
     dict_label_batch :=
       encode_label_batch (grapheme_encoding self) (label <$> batch);
     dict_label_lengths := String.length <$> (label <$> batch);
     keras_learning_phase := true |}.








End LossFacts.

(** ** The default ASG transition table *)

Section AsgFacts.
Implicit Types (l : list Z) (a : list (list Z)).

Lemma exact_divide_zero (d : Z) : d ≠ 0%Z → exact_divide 0 d = finite 0%Qc.
Proof.
  intros Hd. unfold exact_divide. destruct (decide (d = 0%Z)); [done|].
  f_equal. rewrite Z2Qc_inj_0. unfold Qcdiv. ring.
Qed.

Lemma np_sum_cons (x : npfloat) (xs : list npfloat) :
  np_sum (x :: xs) = np_add x (np_sum xs).
Proof. done. Qed.

Lemma np_sum_exact_divide l (d : Z) :
  d ≠ 0%Z →
  np_sum ((λ x, exact_divide x d) <$> l)
  = finite (Qc_of_Z (int_sum l) / Qc_of_Z d)%Qc.
Proof.
  intros Hd. induction l as [|x l IH].
  - simpl. f_equal. rewrite Z2Qc_inj_0. unfold Qcdiv. ring.
  - rewrite fmap_cons, np_sum_cons, IH. unfold exact_divide.
    destruct (decide (d = 0%Z)); [done|]. simpl. f_equal.
    rewrite Z2Qc_inj_add. unfold Qcdiv. ring.
Qed.

(** Integers divided by their sum add up to one. *)
Lemma np_sum_normalised l :
  int_sum l ≠ 0%Z →
  np_sum ((λ x, exact_divide x (int_sum l)) <$> l) = finite 1%Qc.
Proof.
  intros Hd. rewrite np_sum_exact_divide by done. f_equal.
  apply Qcmult_inv_r. rewrite <-Z2Qc_inj_0. by intros ?%Z2Qc_inj.
Qed.

Lemma int_sum_ge_length l :
  Forall (λ x, 1 ≤ x)%Z l → (Z.of_nat (length l) ≤ int_sum l)%Z.
Proof. induction 1; simpl; lia. Qed.

Lemma length_foldl_zip_with (acc : list Z) a :
  Forall (λ row, length row = length acc) a →
  length (foldl (zip_with Z.add) acc a) = length acc.
Proof.
  revert acc. induction a as [|row a IH]; intros acc Hrows; [done|].
  apply Forall_cons in Hrows as [Hrow Hrows]. simpl.
  rewrite IH; rewrite length_zip_with; [lia|].
  eapply Forall_impl; [exact Hrows|]. simpl. lia.
Qed.

(** Each element of the sum along axis 0 is the sum of its column. *)
Lemma lookup_foldl_zip_with (acc : list Z) a (j : nat) (x : Z) :
  Forall (λ row, length row = length acc) a →
  acc !! j = Some x →
  foldl (zip_with Z.add) acc a !! j = Some (x + int_sum (column 0%Z j a))%Z.
Proof.
  revert acc x. induction a as [|row a IH]; intros acc x Hrows Hx.
  - simpl. rewrite Hx. f_equal. lia.
  - apply Forall_cons in Hrows as [Hrow Hrows]. simpl.
    pose proof (lookup_lt_Some _ _ _ Hx) as Hj.
    destruct (lookup_lt_is_Some_2 row j) as [y Hy]; [lia|].
    rewrite (IH _ (x + y)%Z).
    + rewrite Hy. simpl. f_equal. lia.
    + eapply Forall_impl; [exact Hrows|]. simpl. intros r Hr.
      rewrite length_zip_with. lia.
    + rewrite lookup_zip_with, Hx. simpl. by rewrite Hy.
Qed.

Lemma lookup_sum_axis0 (width : nat) a (j : nat) :
  Forall (λ row, length row = width) a → j < width →
  sum_axis0 width a !! j = Some (int_sum (column 0%Z j a)).
Proof.
  intros Hrows Hj. unfold sum_axis0.
  rewrite (lookup_foldl_zip_with _ _ _ 0%Z).
  - done.
  - by rewrite length_replicate.
  - by apply lookup_replicate_2.
Qed.

Lemma length_sum_axis0 (width : nat) a :
  Forall (λ row, length row = width) a → length (sum_axis0 width a) = width.
Proof.
  intros Hrows. unfold sum_axis0.
  rewrite length_foldl_zip_with; rewrite length_replicate; done.
Qed.

Section Table.
Context {num : Type} (true_divide : Z → Z → num).
Variables (randint2 : nat → nat → Z) (g : nat).
Hypothesis randint2_range : ∀ i j, (1 ≤ randint2 i j < 15)%Z.

Local Abbreviation inner := ((λ i, randint2 i <$> seq 1 g) <$> seq 1 g).
Local Abbreviation sums := (sum_axis0 g (replicate g 0%Z :: inner)).
Local Abbreviation drawn j := ((λ i, randint2 i j) <$> seq 1 g).
Local Abbreviation table :=
  (_default_asg_transition_probabilities true_divide randint2 g).

(** The table row by row: the sentinel row, and one row per grapheme
    that starts with the sentinel column. *)
Lemma default_table_rows :
  table =
  zip_with true_divide (0%Z :: replicate g 0%Z) (1%Z :: sums)
  :: ((λ i, zip_with true_divide (0%Z :: (randint2 i <$> seq 1 g))
                     (1%Z :: sums))
        <$> seq 1 g).
Proof.
  unfold _default_asg_transition_probabilities.
  rewrite Nat.add_1_r. cbn [seq]. rewrite !fmap_cons.
  cbn [insert list_insert replicate zip_with].
  assert (zip_with (λ (row : list Z) (z : Z), <[0:=z]> row)
            ((λ i, randint2 i <$> 0 :: seq 1 g) <$> seq 1 g)
            (replicate g 0%Z)
          = (λ i, 0%Z :: (randint2 i <$> seq 1 g)) <$> seq 1 g) as ->.
  { rewrite zip_with_replicate_r_eq by (by rewrite length_fmap, length_seq).
    by rewrite <-list_fmap_compose. }
  rewrite !fmap_cons, <-!list_fmap_compose. done.
Qed.

Lemma inner_rows :
  Forall (λ row : list Z, length row = g) (replicate g 0%Z :: inner).
Proof.
  constructor; [by rewrite length_replicate|].
  apply Forall_fmap, Forall_forall. intros i _. simpl.
  by rewrite length_fmap, length_seq.
Qed.

Lemma length_sums : length sums = g.
Proof. apply length_sum_axis0, inner_rows. Qed.

Lemma lookup_sums j : j < g → sums !! j = Some (int_sum (drawn (S j))).
Proof.
  intros Hj. rewrite lookup_sum_axis0 by (apply inner_rows || done).
  f_equal. unfold column. rewrite fmap_cons.
  rewrite lookup_replicate_2 by done. simpl. rewrite Z.add_0_l. f_equal.
  rewrite <-list_fmap_compose. apply list_fmap_ext. intros k i _. simpl.
  by rewrite list_lookup_fmap, lookup_seq_lt.
Qed.

Lemma drawn_sum_pos j : 0 < g → (0 < int_sum (drawn j))%Z.
Proof using randint2_range.
  intros Hg.
  assert (Z.of_nat (length (drawn j)) ≤ int_sum (drawn j))%Z as Hle.
  { apply int_sum_ge_length, Forall_fmap, Forall_forall.
    intros i _. simpl. apply randint2_range. }
  rewrite length_fmap, length_seq in Hle. lia.
Qed.

Lemma length_table : length table = g + 1.
Proof.
  rewrite default_table_rows. simpl. rewrite length_fmap, length_seq. lia.
Qed.

Lemma table_rows_length : Forall (λ row, length row = g + 1) table.
Proof.
  rewrite default_table_rows. constructor.
  - rewrite length_zip_with. simpl. rewrite length_replicate, length_sums. lia.
  - apply Forall_fmap, Forall_forall. intros i _. simpl.
    rewrite length_zip_with, length_fmap, length_seq, length_sums. lia.
Qed.

(** The entries of the sentinel row. *)
Lemma lookup_sentinel_row j :
  1 ≤ j ≤ g →
  (row ← table !! 0; row !! j) = Some (true_divide 0 (int_sum (drawn j))).
Proof.
  intros [Hj1 Hj2]. destruct j as [|j]; [lia|].
  rewrite default_table_rows. cbn [lookup list_lookup mbind option_bind].
  rewrite lookup_zip_with, !lookup_cons.
  rewrite lookup_replicate_2 by lia. simpl. by rewrite lookup_sums by lia.
Qed.

(** The entries of the sentinel column. *)
Lemma lookup_sentinel_column i :
  i ≤ g → (row ← table !! i; row !! 0) = Some (true_divide 0 1).
Proof.
  intros Hi. rewrite default_table_rows. destruct i as [|i]; [done|].
  rewrite lookup_cons, list_lookup_fmap, lookup_seq_lt by lia. done.
Qed.

(** The other entries: a draw divided by the sum of its column. *)
Lemma lookup_grapheme_row i j :
  1 ≤ i ≤ g → 1 ≤ j ≤ g →
  (row ← table !! i; row !! j)
  = Some (true_divide (randint2 i j) (int_sum (drawn j))).
Proof.
  intros [Hi1 Hi2] [Hj1 Hj2].
  destruct i as [|i]; [lia|]. destruct j as [|j]; [lia|].
  rewrite default_table_rows.
  rewrite lookup_cons, list_lookup_fmap, lookup_seq_lt by lia.
  cbn [fmap option_fmap option_map mbind option_bind].
  rewrite lookup_zip_with, !lookup_cons.
  rewrite list_lookup_fmap, lookup_seq_lt by lia.
  simpl. by rewrite lookup_sums by lia.
Qed.
End Table.

Section ExactTable.
Variables (randint2 : nat → nat → Z) (g : nat).
Hypothesis randint2_range : ∀ i j, (1 ≤ randint2 i j < 15)%Z.

Local Abbreviation inner := ((λ i, randint2 i <$> seq 1 g) <$> seq 1 g).
Local Abbreviation sums := (sum_axis0 g (replicate g 0%Z :: inner)).

Lemma sums_nonzero : Forall (λ x, x ≠ 0%Z) sums.
Proof using randint2_range.
  apply Forall_lookup. intros j x Hx.
  pose proof (lookup_lt_Some _ _ _ Hx) as Hj. rewrite length_sums in Hj.
  rewrite lookup_sums in Hx by done. injection Hx as <-.
  pose proof (drawn_sum_pos randint2 g randint2_range (S j)). lia.
Qed.

(** With exact quotients the sentinel row is zero. *)
Lemma sentinel_row :
  zip_with exact_divide (0%Z :: replicate g 0%Z) (1%Z :: sums)
  = replicate (g + 1) (finite 0%Qc).
Proof using randint2_range.
  rewrite Nat.add_1_r. cbn [zip_with replicate].
  rewrite exact_divide_zero by done. f_equal.
  rewrite zip_with_replicate_l by (by rewrite length_sums).
  rewrite (const_fmap (exact_divide 0) sums (finite 0%Qc)).
  - by rewrite length_sums.
  - intros j x Hx. apply exact_divide_zero.
    pose proof sums_nonzero as Hnz. rewrite Forall_lookup in Hnz. eauto.
Qed.
End ExactTable.

(** A column of a table in terms of its entries. *)
Lemma column_lookup {A} (d : A) (j : nat) (t : list (list A)) (entry : nat → A) :
  (∀ i, i < length t → (row ← t !! i; row !! j) = Some (entry i)) →
  column d j t = entry <$> seq 0 (length t).
Proof.
  intros Hentries. apply list_eq. intros i. unfold column.
  rewrite !list_lookup_fmap.
  destruct (decide (i < length t)) as [Hi|Hi].
  - specialize (Hentries i Hi). rewrite lookup_seq_lt by done.
    destruct (t !! i) as [row|]; [|done]. simpl in *. by rewrite Hentries.
  - rewrite lookup_ge_None_2 by lia.
    by rewrite lookup_ge_None_2 by (rewrite length_seq; lia).
Qed.

(** C6, amended.  For every grapheme set size and every draw of integers
    from [1, 15), and whatever the rounding of the division, the default
    transition table is square of side grapheme_set_size + 1; the entry
    in row i and column j, both from 1 on, is the draw at (i, j) divided
    by the sum of the draws of column j in the rows from 1 on, which is
    positive; the entries of row 0 and of column 0 are 0 divided by such
    a sum or by 1.  With exact quotients every column from 1 on sums to
    exactly 1, and row 0 and column 0 are exactly zero. *)
Theorem default_transition_table {num : Type} (true_divide : Z → Z → num)
    (randint2 : nat → nat → Z) (g : nat) :
  (∀ i j, (1 ≤ randint2 i j < 15)%Z) →
  let total j := int_sum ((λ i, randint2 i j) <$> seq 1 g) in
  let table := _default_asg_transition_probabilities true_divide randint2 g in
  let exact := _default_asg_transition_probabilities exact_divide randint2 g in
  (length table = g + 1 ∧ Forall (λ row, length row = g + 1) table)
  ∧ (∀ i j, 1 ≤ i ≤ g → 1 ≤ j ≤ g →
       (0 < total j)%Z
       ∧ (row ← table !! i; row !! j)
         = Some (true_divide (randint2 i j) (total j)))
  ∧ (∀ j, 1 ≤ j ≤ g →
       (row ← table !! 0; row !! j) = Some (true_divide 0%Z (total j)))
  ∧ (∀ i, i ≤ g → (row ← table !! i; row !! 0) = Some (true_divide 0%Z 1%Z))
  ∧ (∀ j, 1 ≤ j ≤ g → np_sum (column not_finite j exact) = finite 1%Qc)
  ∧ exact !! 0 = Some (replicate (g + 1) (finite 0%Qc))
  ∧ column not_finite 0 exact = replicate (g + 1) (finite 0%Qc).
Proof.
  intros Hrange total table exact.
  assert (∀ j, 1 ≤ j ≤ g → (0 < total j)%Z) as Hpos.
  { intros j Hj. apply drawn_sum_pos; [done|lia]. }
  assert (length exact = g + 1) as Hlen by apply length_table.
  split_and!.
  - apply length_table.
  - apply table_rows_length.
  - intros i j Hi Hj. split; [by apply Hpos|]. by apply lookup_grapheme_row.
  - intros j Hj. by apply lookup_sentinel_row.
  - intros i Hi. by apply lookup_sentinel_column.
  - intros j Hj.
    rewrite (column_lookup _ j exact
               (λ i, exact_divide (match i with
                                   | O => 0%Z
                                   | S _ => randint2 i j
                                   end) (total j))).
    + rewrite Hlen, Nat.add_1_r. cbn [seq]. rewrite fmap_cons, np_sum_cons.
      rewrite exact_divide_zero by (specialize (Hpos j Hj); lia).
      rewrite (list_fmap_ext _ ((λ x, exact_divide x (total j))
                                  ∘ (λ i, randint2 i j)) (seq 1 g)).
      2:{ intros k i Hk. apply lookup_seq in Hk as [-> _]. done. }
      specialize (Hpos j Hj). unfold total in *.
      rewrite list_fmap_compose, np_sum_normalised by lia.
      simpl. by rewrite Qcplus_0_l.
    + intros i Hi. rewrite Hlen in Hi. destruct i as [|i].
      * by apply lookup_sentinel_row.
      * apply lookup_grapheme_row; lia.
  - unfold exact. rewrite default_table_rows.
    cbn [lookup list_lookup]. f_equal. by apply sentinel_row.
  - rewrite (column_lookup _ 0 exact (λ _, finite 0%Qc)).
    + rewrite Hlen. erewrite const_fmap; [by rewrite length_seq|done].
    + intros i Hi. rewrite Hlen in Hi.
      rewrite <-(exact_divide_zero 1) by done.
      apply lookup_sentinel_column. lia.
Qed.
End AsgFacts.

(** * The theorems at the example objects *)


Lemma example_randint2_range i j : (1 ≤ example_randint2 i j < 15)%Z.
Proof.
  unfold example_randint2.
  pose proof (Nat.mod_upper_bound (i + 2 * j) 14). lia.
Qed.

Lemma asg_loss_not_implemented_witness :
  constructed example_asg_net
  ∧ use_asg example_asg_net = true
  ∧ loss 0%Qc example_test_on_batch example_average [[example_labeled 4]]
         example_asg_net
    = (inl (NotImplementedError "ASG is not yet implemented."),
       example_asg_net).
Proof.
  split; [apply constructed_init|]. split; [reflexivity|].
  apply (asg_loss_not_implemented 0%Qc example_test_on_batch example_average
           example_asg_net).
  - apply constructed_init.
  - reflexivity.
Defined.

Lemma total_stride_witness :
  constructed example_net
  ∧ fst (input_to_prediction_length_ratio example_net) = inr 2
  ∧ ∃ input_batch,
      fst (_input_batch_and_prediction_lengths 0%Qc
             [example_spectrogram 9; example_spectrogram 4] example_net)
      = inr (input_batch, [4; 2]).
Proof.
  split; [apply constructed_init|].
  destruct (total_stride 0%Qc example_net) as [Hratio Hlengths].
  - apply constructed_init.
  - split; [exact Hratio|].
    apply (Hlengths [example_spectrogram 9; example_spectrogram 4]).
    split; repeat constructor.
Defined.

(** C3 as stated fails: the network built for spectrogram input does not
    have the strides 2, 1, 1, 1, 1, 1, 1, 1, 1, 32, 1, 1, its total
    stride is 2 and not 64, and a feature length of 640 gives the
    expected output length 320 and not 10. *)
Lemma spectrogram_net_stride_counterexample :
  subsample_length
    <$> filter (λ l, is_Convolution1D l = true) (predictive_net example_net)
  ≠ [2; 1; 1; 1; 1; 1; 1; 1; 1; 32; 1; 1]
  ∧ fst (input_to_prediction_length_ratio example_net) = inr 2
  ∧ fst (input_to_prediction_length_ratio example_net) ≠ inr 64
  ∧ ¬ ∃ input_batch,
        fst (_input_batch_and_prediction_lengths 0%Qc
               [example_spectrogram 640] example_net)
        = inr (input_batch, [10]).
Proof.
  split_and!.
  - vm_compute. discriminate.
  - reflexivity.
  - vm_compute. discriminate.
  - intros [input_batch H].
    rewrite accepted_run in H.
    + cbn [fst] in H. injection H as _ H. vm_compute in H. discriminate H.
    + apply constructed_init.
    + split; repeat constructor.
      all: apply Forall_replicate; reflexivity.
Qed.

Lemma spectrogram_net_stride_witness :
  constructed example_net
  ∧ use_raw_wave_input example_net = false
  ∧ fst (input_to_prediction_length_ratio example_net) = inr 2
  ∧ ∃ input_batch,
      fst (_input_batch_and_prediction_lengths 0%Qc
             [example_spectrogram 640] example_net)
      = inr (input_batch, [320]).
Proof.
  split; [apply constructed_init|]. split; [reflexivity|].
  destruct (spectrogram_net_stride 0%Qc example_net)
    as (_ & _ & Hratio & Hlengths & _).
  - apply constructed_init.
  - reflexivity.
  - split; [exact Hratio|].
    apply (Hlengths (example_spectrogram 640)).
    + apply Forall_replicate. reflexivity.
    + apply length_replicate.
Defined.

(** C4 as stated fails: for one spectrogram of four time steps the
    method does not return the true length 4 next to the tensor (it
    returns 2). *)
Lemma batch_assembly_counterexample :
  ¬ ∃ input_batch,
      fst (_input_batch_and_prediction_lengths 0%Qc [example_spectrogram 4]
             example_net)
      = inr (input_batch, shape0 <$> [example_spectrogram 4]).
Proof.
  intros [input_batch H]. vm_compute in H. discriminate H.
Qed.

Lemma batch_assembly_witness :
  constructed example_net
  ∧ ∃ input_batch,
      fst (_input_batch_and_prediction_lengths 0%Qc
             [example_spectrogram 4; example_spectrogram 2] example_net)
      = inr (input_batch, [2; 1])
      ∧ shape3 input_batch = (2, 4, 1)
      ∧ item3 input_batch 1 1 0 = Some 1%Qc
      ∧ item3 input_batch 1 2 0 = Some 0%Qc.
Proof.
  split; [apply constructed_init|].
  destruct (batch_assembly 0%Qc example_net (example_spectrogram 4)
              [example_spectrogram 2])
    as (input_batch & Hrun & Hshape & Hitems).
  - apply constructed_init.
  - repeat constructor.
  - repeat constructor.
  - exists input_batch. split; [exact Hrun|]. split; [exact Hshape|].
    destruct (Hitems 1 (example_spectrogram 2) eq_refl) as [Hin Hout].
    split.
    + destruct (Hin 1 0) as [_ ->]; [vm_compute; lia..|reflexivity].
    + apply Hout; vm_compute; lia.
Defined.



(** C6 as stated fails in binary64: for ten graphemes and all draws
    equal to 1 every entry of column 1 below the sentinel row is the
    binary64 quotient 1/10.  Added one after the other the eleven
    entries of the column give a number below 1, and the rationals they
    are add up to 1 + 2^-54. *)
Lemma default_transition_table_counterexample :
  column (float64_of_int 0) 1 example_float64_table
  = float64_of_int 0 :: replicate 10 (float64_divide 1 10)
  ∧ PrimFloat.ltb example_float64_column_sum (float64_of_int 1) = true
  ∧ example_float64_column_sum ≠ float64_of_int 1
  ∧ float64_exact_sum (column (float64_of_int 0) 1 example_float64_table)
    = Some (Qmake 18014398509481985 18014398509481984)
  ∧ ¬ (Qmake 18014398509481985 18014398509481984 == 1)%Q.
Proof.
  split; [vm_compute; reflexivity|].
  assert (PrimFloat.ltb example_float64_column_sum (float64_of_int 1) = true)
    as Hlt by (vm_compute; reflexivity).
  split; [exact Hlt|]. split.
  { intros Heq. rewrite Heq in Hlt. vm_compute in Hlt. discriminate Hlt. }
  split; [vm_compute; reflexivity|].
  unfold Qeq. simpl. lia.
Qed.

Lemma default_transition_table_witness :
  (∀ i j, (1 ≤ example_randint2 i j < 15)%Z)
  ∧ np_sum (column not_finite 2
              (_default_asg_transition_probabilities exact_divide
                 example_randint2 2))
    = finite 1%Qc
  ∧ (row ← _default_asg_transition_probabilities exact_divide
             example_randint2 2 !! 1;
     row !! 2)
    = Some (exact_divide 6 13).
Proof.
  split; [apply example_randint2_range|].
  destruct (default_transition_table exact_divide example_randint2 2
              example_randint2_range)
    as (_ & Hentries & _ & _ & Hsum & _).
  split.
  - apply Hsum. lia.
  - destruct (Hentries 1 2) as [_ Hentry]; [lia..|]. exact Hentry.
Defined.



(** * Further properties *)

(** ** The layer list, beyond strides and dropout *)

Section MoreNetFacts.
Context {float : Type}.
Implicit Types (l : Layer float) (layers : list (Layer float)).

Lemma convolution_settings_set_untrainable l :
  convolution_settings (set_untrainable l) = convolution_settings l.
Proof. by destruct l. Qed.

Lemma layer_name_set_untrainable l :
  layer_name (set_untrainable l) = layer_name l.
Proof. by destruct l. Qed.

Lemma settings_of_convolutions_set_untrainable layers :
  convolution_settings
    <$> filter (λ l, is_Convolution1D l = true) (set_untrainable <$> layers)
  = convolution_settings <$> filter (λ l, is_Convolution1D l = true) layers.
Proof.
  induction layers as [|l layers IH]; [done|].
  rewrite fmap_cons, !filter_cons, is_Convolution1D_set_untrainable.
  destruct (decide (is_Convolution1D l = true)); [|done].
  by rewrite !fmap_cons, convolution_settings_set_untrainable, IH.
Qed.

Lemma settings_of_convolutions_freeze k layers :
  convolution_settings
    <$> filter (λ l, is_Convolution1D l = true) (freeze k layers)
  = convolution_settings <$> filter (λ l, is_Convolution1D l = true) layers.
Proof.
  unfold freeze. set (n := slice_to_length layers k).
  rewrite <-(take_drop n layers) at 3.
  by rewrite !filter_app, !fmap_app, settings_of_convolutions_set_untrainable.
Qed.

Section Configuration.
Variables (dropout : option float) (activation output_activation : string)
          (use_raw_wave_input : bool)
          (input_size_per_time_step grapheme_set_size : nat).

Local Abbreviation net d k :=
  (create_predictive_net d activation output_activation
     use_raw_wave_input input_size_per_time_step grapheme_set_size k).

(** X1.  Neither the dropout rate nor the number of frozen layers
    changes the convolutions of the network: name, number of filters,
    filter width, stride, activation and input size of each are those
    of the network built without dropout and without frozen layers.
    There are eleven convolutions, twelve for raw-wave input, and the
    last one has one filter per grapheme, width 1, stride 1 and the
    output activation. *)
Theorem convolutions_independent_of_dropout_and_freezing (k : Z) :
  let convolutions layers :=
    convolution_settings <$> filter (λ l, is_Convolution1D l = true) layers in
  convolutions (net dropout k) = convolutions (net None 0)
  ∧ length (convolutions (net dropout k))
    = (if use_raw_wave_input then 12 else 11)
  ∧ last (convolutions (net dropout k))
    = Some ("output_conv", grapheme_set_size, 1, 1,
            Some output_activation, None).
Proof.
  cbv zeta. unfold create_predictive_net.
  rewrite !settings_of_convolutions_freeze.
  destruct use_raw_wave_input, dropout; vm_compute; done.
Qed.

(** X2.  The layers of the network have pairwise different names,
    whatever the configuration. *)
Theorem layer_names_distinct (k : Z) :
  NoDup (layer_name <$> net dropout k).
Proof.
  unfold create_predictive_net.
  rewrite (fmap_freeze layer_name) by apply layer_name_set_untrainable.
  destruct use_raw_wave_input, dropout;
    apply (bool_decide_unpack _); vm_compute; exact I.
Qed.

(** X3.  A negative number of frozen layers counts from the end, as a
    Python slice bound does: the layer at position [i] is trainable
    exactly when it is among the last [-k] layers, so [-1] freezes all
    layers but the output layer, and a bound at or below minus the
    number of layers freezes none. *)
Theorem frozen_layers_from_the_end (k : Z) :
  (k < 0)%Z →
  let layers := net dropout k in
  ∀ (i : nat) l, layers !! i = Some l →
    trainable l = bool_decide (Z.of_nat (length layers) + k ≤ Z.of_nat i)%Z.
Proof.
  intros Hk layers i l Hi.
  assert (length layers
          = length (unfrozen_layers dropout activation output_activation
                      use_raw_wave_input input_size_per_time_step
                      grapheme_set_size)) as ->
    by apply length_freeze.
  by apply trainable_net_negative.
Qed.
End Configuration.
End MoreNetFacts.

(** ** The methods, beyond the claims *)

Section MoreObjectFacts.
Context {float : Type} (zero : float).
Variable forward_pass
  : list (Layer float) → bool → ndarray3 float → ndarray3 float.
Implicit Types (self : @Wav2Letter float) (s : ndarray2 float).

(** X4.  The ratio of an object depends on the kind of input only: it
    is 320 for raw-wave input and 2 otherwise, whatever the dropout
    rate and the number of frozen layers.  After the first access it is
    stored, and a later access returns it without changing the
    object. *)
Theorem ratio_depends_on_input_only self :
  constructed self →
  let ratio := if use_raw_wave_input self then 320 else 2 in
  input_to_prediction_length_ratio self = (inr ratio, with_ratio self)
  ∧ lazy_input_to_prediction_length_ratio (with_ratio self) = Some ratio
  ∧ input_to_prediction_length_ratio (with_ratio self)
    = (inr ratio, with_ratio self).
Proof.
  intros Hself ratio.
  assert (effective_ratio self = ratio) as Hratio.
  { by rewrite constructed_effective_ratio, constructed_stride_product. }
  split_and!.
  - by rewrite input_to_prediction_length_ratio_run, Hratio.
  - by rewrite lazy_ratio_with_ratio, Hratio.
  - rewrite input_to_prediction_length_ratio_run.
    by rewrite effective_ratio_with_ratio, with_ratio_idemp, Hratio.
Qed.

Lemma fits_false width s :
  fits width s = false ↔ width < shape1 s ∧ shape1 s ≠ 1.
Proof.
  unfold fits, broadcastable. rewrite orb_false_iff, !Nat.eqb_neq. lia.
Qed.

(** The loop over the spectrograms either fills every block or stops at
    the first spectrogram that does not fit. *)
Lemma assign_each_outcome (spectrograms : list (ndarray2 float)) index
    (batch : ndarray3 float) b len width :
  shape3 batch = (b, len, width) →
  index + length spectrograms ≤ length (blocks batch) →
  Forall (λ s, shape0 s ≤ len) spectrograms →
  (Forall (λ s, fits width s = true) spectrograms →
   is_raised (assign_each index spectrograms batch) = false)
  ∧ (Exists (λ s, fits width s = false) spectrograms →
     assign_each index spectrograms batch = inl ValueError).
Proof.
  revert index batch.
  induction spectrograms as [|s rest IH];
    intros index batch Hshape Hblocks Hlen.
  { split; [done|]. by intros ?%Exists_nil. }
  apply Forall_cons in Hlen as [Hs Hlen]. simpl in Hblocks.
  assert (broadcastable (shape0 s) (shape0 s) = true) as Hsame.
  { unfold broadcastable. by rewrite Nat.eqb_refl. }
  cbn [assign_each]. unfold assign_prefix. rewrite Hshape.
  replace (shape0 s `min` len) with (shape0 s) by lia.
  rewrite Hsame. cbn [andb].
  change (broadcastable (shape1 s) (shape1 s `min` width))
    with (fits width s).
  destruct (fits width s) eqn:Hfits.
  - destruct (lookup_lt_is_Some_2 (blocks batch) index) as [block ->]; [lia|].
    match goal with
    | |- context [assign_each _ _ ?b'] => set (batch' := b')
    end.
    destruct (IH (S index) batch') as [IHfits IHwide]; [done| |done|].
    { unfold batch'. cbn [blocks]. rewrite length_insert. lia. }
    split.
    + intros [_ Hrest]%Forall_cons. by apply IHfits.
    + intros [Hwide|Hwide]%Exists_cons; [congruence|by apply IHwide].
  - split; [|done]. intros [Hwide _]%Forall_cons. congruence.
Qed.

(** X5.  On a non-empty list of spectrograms the method of a
    constructed object raises nothing but [ValueError], and it raises
    it exactly when some spectrogram is wider than the first one and
    its width is not 1. *)
Theorem assembly_raises_only_ValueError self (first : ndarray2 float) rest :
  constructed self →
  let outcome :=
    fst (_input_batch_and_prediction_lengths zero (first :: rest) self) in
  (outcome = inl ValueError
   ↔ ∃ s, s ∈ first :: rest ∧ shape1 first < shape1 s ∧ shape1 s ≠ 1)
  ∧ (is_raised outcome = true → outcome = inl ValueError).
Proof.
  intros Hself outcome. unfold outcome.
  rewrite _input_batch_and_prediction_lengths_run. cbn [fst].
  unfold assemble.
  rewrite floordiv_each_pos by (by apply constructed_ratio_pos).
  rewrite fmap_cons, py_max_cons, <-fmap_cons.
  set (spectrograms := first :: rest).
  set (longest := max_list (shape0 <$> spectrograms)).
  assert (Forall (λ s, shape0 s ≤ longest) spectrograms) as Hlen.
  { apply Forall_forall. intros s Hs. by apply shape0_le_max_list. }
  destruct (assign_each_outcome spectrograms 0
              (zeros zero (length spectrograms, longest, shape1 first))
              (length spectrograms) longest (shape1 first) eq_refl)
    as [Hfits Hwide]; [|done|].
  { cbn [zeros blocks]. by rewrite length_replicate. }
  destruct (decide (Exists (λ s, fits (shape1 first) s = false) spectrograms))
    as [Hex|Hex].
  - rewrite (Hwide Hex). split; [|done]. split; [|done].
    intros _. apply Exists_exists in Hex as (s & Hs & Hs').
    exists s. split; [done|]. by apply fits_false.
  - apply not_Exists_Forall in Hex; [|apply _].
    assert (Forall (λ s, fits (shape1 first) s = true) spectrograms) as Hall.
    { eapply Forall_impl; [exact Hex|]. simpl. intros s.
      by destruct (fits (shape1 first) s). }
    specialize (Hfits Hall).
    destruct (assign_each _ _ _) as [e|input_batch]; [done|].
    split; [|done]. split; [done|].
    intros (s & Hs & Hwide'). apply fits_false in Hwide'.
    rewrite Forall_forall in Hall. specialize (Hall s Hs). congruence.
Qed.

Lemma padded_block_exact s :
  well_formed s → padded_block zero (shape0 s) (shape1 s) s = rows s.
Proof.
  intros Hwf. unfold padded_block, shape0.
  replace (length (rows s) - length (rows s)) with 0 by lia.
  replace (shape1 s - shape1 s) with 0 by lia.
  simpl. rewrite app_nil_r.
  rewrite <-(list_fmap_id (rows s)) at 2.
  apply Forall_fmap_ext_1. eapply Forall_impl; [exact Hwf|].
  intros row Hrow. simpl in Hrow.
  rewrite take_ge by lia. by rewrite app_nil_r.
Qed.

(** X6.  [predict_single] hands the spectrogram to the network as it
    is, as a batch of one without padding and in prediction phase, and
    has the result decoded for the length of the spectrogram
    integer-divided by the ratio; it returns the first decoded string
    and raises [IndexError] if the decoder returns none. *)
Theorem predict_single_unpadded self s :
  constructed self → well_formed s →
  predict_single zero forward_pass s self
  = (match decode_prediction_batch (grapheme_encoding self)
             (forward_pass (predictive_net self) false
                {| shape3 := (1, shape0 s, shape1 s); blocks := [rows s] |})
             [shape0 s `div` (if use_raw_wave_input self then 320 else 2)]
           !! 0 with
     | Some prediction => inr prediction
     | None => inl IndexError
     end,
     with_ratio self).
Proof.
  intros Hself Hwf. unfold predict_single.
  rewrite bind_run, predict_run.
  rewrite assemble_fitting; [|by apply constructed_ratio_pos|by constructor|].
  2:{ constructor; [|done]. by apply fits_le. }
  rewrite constructed_effective_ratio, constructed_stride_product by done.
  cbn [fmap list_fmap length max_list_with id].
  rewrite Nat.max_0_r, padded_block_exact by done.
  by rewrite lift_run.
Qed.

(** X7.  For an accepted batch the generator yields an input dictionary
    and dummy labels that agree on the batch size: the tensor has one
    block per example, and there is one prediction length, one label
    length and one dummy label per example.  The learning phase is
    training, the label lengths are the lengths of the labels, and no
    prediction length exceeds the padded length integer-divided by the
    ratio.  On an empty batch the generator raises [IndexError] and
    leaves the object as it is. *)
Theorem generator_item_consistent self
    (batch : list (@LabeledSpectrogram float)) :
  constructed self → accepted (spectrogram <$> batch) →
  let ratio := if use_raw_wave_input self then 320 else 2 in
  let longest := max_list (shape0 <$> (spectrogram <$> batch)) in
  (∃ d width,
     _generator_item zero batch self
     = (inr (d, replicate (length batch) zero), with_ratio self)
     ∧ shape3 (dict_input_batch d) = (length batch, longest, width)
     ∧ length (blocks (dict_input_batch d)) = length batch
     ∧ dict_prediction_lengths d
       = (λ x, shape0 (spectrogram x) `div` ratio) <$> batch
     ∧ Forall (λ p, p ≤ longest `div` ratio) (dict_prediction_lengths d)
     ∧ dict_label_lengths d = (λ x, String.length (label x)) <$> batch
     ∧ dict_label_batch d
       = encode_label_batch (grapheme_encoding self) (label <$> batch)
     ∧ keras_learning_phase d = true)
  ∧ _generator_item zero [] self = (inl IndexError, self).
Proof.
  intros Hself Hacc ratio longest. split; [|done].
  unfold _generator_item, _training_input_dictionary.
  rewrite !bind_run, accepted_run by done.
  rewrite bind_run. unfold get_self. cbn [mret M_ret].
  eexists _, _. split; [reflexivity|]. cbn.
  rewrite constructed_stride_product by done. fold ratio.
  rewrite !length_fmap.
  split_and!; try done.
  - by rewrite <-list_fmap_compose.
  - rewrite <-list_fmap_compose. apply Forall_fmap, Forall_forall.
    intros x Hx. simpl. apply Nat.Div0.div_le_mono.
    apply shape0_le_max_list. apply list_elem_of_fmap. eauto.
  - by rewrite <-list_fmap_compose.
  - unfold with_ratio.
    by destruct (lazy_input_to_prediction_length_ratio self).
Qed.

(** X8.  In CTC mode the loss net is built on the first access and then
    kept: the model takes the four named inputs and yields the CTC
    batch cost of the labels (as the truth) and the output of the
    predictive net on the input batch (as the prediction); a second
    access returns that same model and changes nothing. *)
Theorem loss_net_built_once self :
  constructed self → use_asg self = false →
  let net :=
    {| model_input := [Input "input_batch"; Input "label_batch";
                       Input "prediction_lenghts"; Input "label_lenghts"];
       model_output :=
         [ctc_batch_cost (Input "label_batch")
            (Sequential_call (predictive_net self) (Input "input_batch"))
            (Input "prediction_lenghts") (Input "label_lenghts")];
       loss_layer_name := "ctc_loss" |} in
  ∃ self',
    loss_net self = (inr net, self')
    ∧ lazy_loss_net self' = Some net
    ∧ loss_net self' = (inr net, self')
    ∧ constructed self'
    ∧ predictive_net self' = predictive_net self
    ∧ lazy_input_to_prediction_length_ratio self'
      = lazy_input_to_prediction_length_ratio self.
Proof.
  intros Hself Hctc net.
  assert (build_loss_net self = inr net) as Hbuild.
  { unfold build_loss_net. by rewrite Hctc. }
  pose proof (loss_net_run self Hself) as Hrun. rewrite Hbuild in Hrun.
  destruct (lazy_loss_net self) as [net0|] eqn:Hc.
  - destruct Hself as (Hnet & Hratio & Hloss).
    pose proof (Hloss net0 Hc) as Hnet0. rewrite Hbuild in Hnet0.
    injection Hnet0 as <-.
    exists self. by split_and!.
  - exists (store_loss_net net self).
    assert (constructed (store_loss_net net self)) as Hself'
      by (by apply constructed_store_loss_net).
    by split_and!.
Qed.
End MoreObjectFacts.

(** ** Checkpoints and callbacks *)

Lemma list_ascii_of_string_app (s t : string) :
  String.list_ascii_of_string (s +:+ t)
  = String.list_ascii_of_string s ++ String.list_ascii_of_string t.
Proof. induction s as [|c s IH]; simpl; [done|by rewrite IH]. Qed.

Lemma string_app_inv_tail (s1 s2 t : string) : s1 +:+ t = s2 +:+ t → s1 = s2.
Proof.
  intros H. apply (f_equal String.list_ascii_of_string) in H.
  rewrite !list_ascii_of_string_app in H. apply app_inv_tail in H.
  rewrite <-(String.string_of_list_ascii_of_string s1).
  rewrite <-(String.string_of_list_ascii_of_string s2).
  by rewrite H.
Qed.

(** X9.  The checkpoints of different epochs have different file
    names: the name of the weights file determines the epoch, also for
    a negative one. *)
Theorem checkpoint_names_distinct (epoch epoch' : Z) :
  model_file_name epoch = model_file_name epoch' ↔ epoch = epoch'.
Proof.
  split; [|by intros ->]. unfold model_file_name. intros H.
  apply String.app_inj, string_app_inv_tail in H.
  by apply pretty_Z_inj.
Qed.

Lemma py_mod_nonzero (a b : Z) : b ≠ 0%Z → py_mod a b = inr (a `mod` b)%Z.
Proof. intros Hb. unfold py_mod. by destruct (decide (b = 0%Z)). Qed.

(** X10.  With steps other than zero and a callback that returns,
    [on_epoch_end] returns; it calls the callback exactly when the
    callback step divides the epoch, and after that it makes the net
    directory and saves the weights, under the file name of the epoch
    in that directory, exactly when the save step divides the epoch and
    the epoch is positive.  With the steps 1 of [train] the callback
    runs after every epoch and the weights are saved after every epoch
    but epoch 0. *)
Theorem on_epoch_end_effects (net_directory : list string)
    (callback_step save_step epoch : Z) :
  callback_step ≠ 0%Z → save_step ≠ 0%Z →
  (∃ called saved,
     on_epoch_end (inr ()) net_directory callback_step save_step epoch
     = (called ++ saved, inr ())
     ∧ ((callback_step | epoch)%Z ∧ called = [CallCallback]
        ∨ ¬ (callback_step | epoch)%Z ∧ called = [])
     ∧ (((save_step | epoch)%Z ∧ (0 < epoch)%Z)
        ∧ saved = [Makedirs net_directory;
                   SaveWeights (net_directory ++ [model_file_name epoch])]
        ∨ ¬ ((save_step | epoch)%Z ∧ (0 < epoch)%Z) ∧ saved = []))
  ∧ on_epoch_end (inr ()) net_directory 1 1 epoch
    = (CallCallback ::
       (if decide (0 < epoch)%Z
        then [Makedirs net_directory;
              SaveWeights (net_directory ++ [model_file_name epoch])]
        else []),
       inr ()).
Proof.
  intros Hc Hs. split.
  - unfold on_epoch_end. rewrite !py_mod_nonzero by done.
    pose proof (Z.mod_divide epoch callback_step Hc) as Hcd.
    pose proof (Z.mod_divide epoch save_step Hs) as Hsd.
    eexists (if bool_decide (epoch `mod` callback_step = 0)%Z
             then [CallCallback] else []),
            (if bool_decide (epoch `mod` save_step = 0)%Z
                && bool_decide (0 < epoch)%Z
             then _ else []).
    split_and!.
    + repeat case_bool_decide; simpl; try done; by rewrite app_nil_r.
    + case_bool_decide; [left|right]; split; try done; tauto.
    + repeat case_bool_decide; simpl; [left|right..]; split; try done; tauto.
  - unfold on_epoch_end. rewrite !py_mod_nonzero by done.
    rewrite !Z.mod_1_r. simpl.
    by repeat case_bool_decide; destruct (decide _).
Qed.

(** X11.  A callback step of zero makes [on_epoch_end] raise
    [ZeroDivisionError] before anything is done.  An exception of the
    callback is passed on and no weights are saved.  A save step of
    zero raises [ZeroDivisionError], at every epoch and also at epoch
    0, after the callback has run where it was due. *)
Theorem on_epoch_end_raises (callback : result ()) (net_directory : list string)
    (callback_step save_step epoch : Z) :
  (callback_step = 0%Z →
   on_epoch_end callback net_directory callback_step save_step epoch
   = ([], inl ZeroDivisionError))
  ∧ (callback_step ≠ 0%Z → (callback_step | epoch)%Z →
     ∀ e, callback = inl e →
     on_epoch_end callback net_directory callback_step save_step epoch
     = ([CallCallback], inl e))
  ∧ (callback_step ≠ 0%Z → save_step = 0%Z → is_raised callback = false →
     ∃ called,
       on_epoch_end callback net_directory callback_step save_step epoch
       = (called, inl ZeroDivisionError)
       ∧ (called = [CallCallback] ∨ called = [])
       ∧ (CallCallback ∈ called ↔ (callback_step | epoch)%Z)).
Proof.
  split_and!.
  - intros ->. done.
  - intros Hc Hd e ->. unfold on_epoch_end. rewrite py_mod_nonzero by done.
    apply Z.mod_divide in Hd; [|done]. rewrite Hd. done.
  - intros Hc -> Hcb. unfold on_epoch_end. rewrite py_mod_nonzero by done.
    pose proof (Z.mod_divide epoch callback_step Hc) as Hcd.
    destruct callback as [e|[]]; [done|].
    case_bool_decide; simpl.
    + exists [CallCallback]. split_and!; [done|by left|].
      split; [tauto|]. intros _. by apply list_elem_of_singleton.
    + exists []. split_and!; [done|by right|].
      split; [by intros ?%elem_of_nil|tauto].
Qed.

Section TrainFacts.
Context {float : Type} (zero : float).
Variable forward_pass
  : list (Layer float) → bool → ndarray3 float → ndarray3 float.
Implicit Types (self : @Wav2Letter float).

Lemma build_loss_net_with_ratio self :
  build_loss_net (with_ratio self) = build_loss_net self.
Proof.
  unfold with_ratio.
  by destruct (lazy_input_to_prediction_length_ratio self).
Qed.

Lemma lazy_loss_net_with_ratio self :
  lazy_loss_net (with_ratio self) = lazy_loss_net self.
Proof.
  unfold with_ratio.
  by destruct (lazy_input_to_prediction_length_ratio self).
Qed.

Lemma load_epoch_with_ratio self :
  load_epoch (with_ratio self) = load_epoch self.
Proof.
  unfold with_ratio.
  by destruct (lazy_input_to_prediction_length_ratio self).
Qed.

(** X12.  [train] first predicts the test batch: the spectrograms of
    the batch, padded with zeros to the longest of them, go through the
    network in prediction phase and are decoded for their lengths
    integer-divided by the ratio, which is stored by then.  After that
    [train] reaches for the loss net.  With ASG enabled it therefore
    raises [NotImplementedError] after the prediction and nothing is
    trained.  In CTC mode it prints one expectation and prediction per
    pair, separated by empty lines, and hands the batches to
    [fit_generator] of the CTC loss net, which is kept, for 100000000
    epochs from the loaded epoch on, or from epoch 0 if none was
    loaded.  On an empty test batch it raises [IndexError] and leaves
    the object as it is. *)
Theorem train_outcome self
    (labeled_spectrogram_batches : list (list (@LabeledSpectrogram float)))
    (test_batch : list (@LabeledSpectrogram float)) (samples_per_epoch : nat) :
  constructed self → accepted (spectrogram <$> test_batch) →
  let run :=
    train zero forward_pass labeled_spectrogram_batches test_batch
          samples_per_epoch in
  let ratio := if use_raw_wave_input self then 320 else 2 in
  let spectrograms := spectrogram <$> test_batch in
  let longest := max_list (shape0 <$> spectrograms) in
  let width := from_option shape1 0 (head spectrograms) in
  let input_batch :=
    {| shape3 := (length test_batch, longest, width);
       blocks := padded_block zero longest width <$> spectrograms |} in
  let predicted :=
    decode_prediction_batch (grapheme_encoding self)
      (forward_pass (predictive_net self) false input_batch)
      ((λ s, shape0 s `div` ratio) <$> spectrograms) in
  let net :=
    {| model_input := [Input "input_batch"; Input "label_batch";
                       Input "prediction_lenghts"; Input "label_lenghts"];
       model_output :=
         [ctc_batch_cost (Input "label_batch")
            (Sequential_call (predictive_net self) (Input "input_batch"))
            (Input "prediction_lenghts") (Input "label_lenghts")];
       loss_layer_name := "ctc_loss" |} in
  let self' :=
    if lazy_loss_net self is Some _ then with_ratio self
    else store_loss_net net (with_ratio self) in
  (use_asg self = true →
   run self
   = (inl (NotImplementedError "ASG is not yet implemented."),
      with_ratio self)
   ∧ fst (predict zero forward_pass spectrograms self) = inr predicted)
  ∧ (use_asg self = false →
     run self
     = (inr (String.concat (newline +:+ newline)
               (expectation_vs_prediction
                  <$> zip (label <$> test_batch) predicted),
             {| fit_model := net;
                fit_batches := labeled_spectrogram_batches;
                fit_nb_epoch := 100000000;
                fit_samples_per_epoch := samples_per_epoch;
                fit_initial_epoch := default 0 (load_epoch self) |}),
        self')
     ∧ lazy_loss_net self' = Some net
     ∧ lazy_input_to_prediction_length_ratio self' = Some ratio
     ∧ constructed self')
  ∧ train zero forward_pass labeled_spectrogram_batches [] samples_per_epoch
          self
    = (inl IndexError, self).
Proof.
  intros Hself Hacc run ratio spectrograms longest width input_batch predicted
    net self'.
  assert (constructed (with_ratio self)) as Hself'
    by (by apply constructed_with_ratio).
  assert (predict zero forward_pass spectrograms self
          = (inr predicted, with_ratio self)) as Hpredict.
  { rewrite predict_run.
    unfold predicted, input_batch, longest, width, spectrograms.
    rewrite <-(length_fmap spectrogram test_batch).
    destruct (spectrogram <$> test_batch) as [|first rest]; [done|].
    destruct Hacc as [Hwf Hfits].
    rewrite assemble_fitting by (done || by apply constructed_ratio_pos).
    by rewrite constructed_effective_ratio, constructed_stride_product. }
  assert (effective_ratio self = ratio) as Hratio.
  { by rewrite constructed_effective_ratio, constructed_stride_product. }
  unfold run, train, print_expectations_vs_prediction.
  split_and!; [..|done].
  - intros Hasg. split; [|by rewrite Hpredict].
    fold spectrograms. rewrite !bind_run, Hpredict.
    cbn [mret M_ret]. rewrite bind_run, loss_net_run by done.
    rewrite build_loss_net_with_ratio.
    unfold build_loss_net. by rewrite Hasg.
  - intros Hctc.
    assert (build_loss_net self = inr net) as Hnet.
    { unfold build_loss_net. by rewrite Hctc. }
    assert (load_epoch self' = load_epoch self) as Hepoch.
    { unfold self'. destruct (lazy_loss_net self); [|simpl];
        apply load_epoch_with_ratio. }
    split_and!.
    + fold spectrograms. rewrite !bind_run, Hpredict.
      cbn [mret M_ret]. rewrite bind_run, loss_net_run by done.
      rewrite build_loss_net_with_ratio, Hnet, lazy_loss_net_with_ratio.
      rewrite bind_run. unfold get_self. cbn [mret M_ret].
      fold self'. by rewrite Hepoch.
    + unfold self'. destruct (lazy_loss_net self) as [net0|] eqn:Hc; [|done].
      rewrite lazy_loss_net_with_ratio, Hc. f_equal.
      destruct Hself as (_ & _ & Hloss). specialize (Hloss net0 Hc). congruence.
    + unfold self'.
      destruct (lazy_loss_net self); [|simpl];
        by rewrite lazy_ratio_with_ratio, Hratio.
    + unfold self'. destruct (lazy_loss_net self); [done|].
      apply constructed_store_loss_net; [done|].
      by rewrite build_loss_net_with_ratio.
Qed.
End TrainFacts.

(** ** The default ASG initial probabilities *)

Lemma default_initial_rows {num : Type} (true_divide : Z → Z → num)
    (randint1 : nat → Z) (g : nat) :
  _default_asg_initial_probabilities true_divide randint1 g
  = (λ x, true_divide x (int_sum (randint1 <$> seq 1 g)))
      <$> (0%Z :: (randint1 <$> seq 1 g)).
Proof.
  unfold _default_asg_initial_probabilities.
  rewrite Nat.add_1_r. cbn [seq fmap list_fmap insert list_insert].
  by cbn [int_sum foldr Z.add].
Qed.

(** X13.  For every grapheme set size and every draw of integers from
    [1, 15), and whatever the rounding of the division, the default
    initial probabilities are grapheme_set_size + 1 numbers: entry 0 is
    0 divided by the sum of the draws from 1 on, and entry i is the
    draw at i divided by that sum, which is at least the number of
    graphemes.  With exact quotients and at least one grapheme entry 0
    is zero and the entries sum to 1; with no grapheme the only entry
    is 0 divided by 0, which is not a number. *)
Theorem default_initial_probabilities {num : Type}
    (true_divide : Z → Z → num) (randint1 : nat → Z) (g : nat) :
  (∀ i, (1 ≤ randint1 i < 15)%Z) →
  let total := int_sum (randint1 <$> seq 1 g) in
  let initial := _default_asg_initial_probabilities true_divide randint1 g in
  let exact := _default_asg_initial_probabilities exact_divide randint1 g in
  length initial = g + 1
  ∧ initial !! 0 = Some (true_divide 0%Z total)
  ∧ (∀ i, 1 ≤ i ≤ g → initial !! i = Some (true_divide (randint1 i) total))
  ∧ (Z.of_nat g ≤ total)%Z
  ∧ (1 ≤ g → exact !! 0 = Some (finite 0%Qc) ∧ np_sum exact = finite 1%Qc)
  ∧ (g = 0 → exact = [not_finite]).
Proof.
  intros Hrange total initial exact.
  assert (Z.of_nat g ≤ total)%Z as Htotal.
  { unfold total.
    trans (Z.of_nat (length (randint1 <$> seq 1 g))).
    { rewrite length_fmap, length_seq. lia. }
    apply int_sum_ge_length, Forall_fmap, Forall_forall.
    intros i _. simpl. specialize (Hrange i). lia. }
  unfold initial, exact. rewrite !default_initial_rows. fold total.
  split_and!.
  - rewrite !length_fmap. simpl. rewrite length_fmap, length_seq. lia.
  - done.
  - intros [|i] Hi; [lia|]. rewrite fmap_cons, lookup_cons.
    rewrite !list_lookup_fmap, lookup_seq_lt by lia. done.
  - done.
  - intros Hg. rewrite fmap_cons, np_sum_cons.
    rewrite exact_divide_zero by lia. split; [done|].
    unfold total. rewrite np_sum_normalised by (fold total; lia).
    simpl. by rewrite Qcplus_0_l.
  - intros ->. done.
Qed.

(** ** [corpus_provider.py]: texts *)

Section TextFacts.
Context {char : Type} `{EqDecision char}.
Implicit Types (old tag text : list char) (tags : list (list char)).

Lemma replace_by_nothing_from_sublist old skip text :
  replace_by_nothing_from old skip text `sublist_of` text.
Proof.
  revert skip. induction text as [|c rest IH]; intros skip; [done|].
  cbn [replace_by_nothing_from]. destruct skip as [|k].
  - case_bool_decide; [by apply sublist_cons|by apply sublist_skip].
  - by apply sublist_cons.
Qed.

Lemma replace_by_nothing_from_length old skip text :
  length (replace_by_nothing_from old skip text) ≤ length text - skip.
Proof.
  revert skip. induction text as [|c rest IH]; intros skip; [simpl; lia|].
  cbn [replace_by_nothing_from]. destruct skip as [|k].
  - case_bool_decide.
    + specialize (IH (length old - 1)). simpl. lia.
    + specialize (IH 0). simpl. lia.
  - specialize (IH k). simpl. lia.
Qed.

Lemma replace_by_nothing_absent old text :
  ¬ (old ≠ [] ∧ ∃ l1 l2, text = l1 ++ old ++ l2) →
  replace_by_nothing old text = text.
Proof.
  unfold replace_by_nothing.
  induction text as [|c rest IH]; intros Habsent; [done|].
  cbn [replace_by_nothing_from]. case_bool_decide as Hprefix.
  - destruct Hprefix as [Hold [l2 Hl2]]. destruct Habsent.
    split; [done|]. by exists [], l2.
  - f_equal. apply IH. intros [Hold (l1 & l2 & ->)]. apply Habsent.
    split; [done|]. by exists (c :: l1), l2.
Qed.

Lemma replace_by_nothing_present old text :
  old ≠ [] → (∃ l1 l2, text = l1 ++ old ++ l2) →
  length (replace_by_nothing old text) < length text.
Proof.
  unfold replace_by_nothing. intros Hold.
  induction text as [|c rest IH]; intros (l1 & l2 & Htext).
  { by destruct l1, old. }
  cbn [replace_by_nothing_from]. case_bool_decide as Hprefix.
  - pose proof (replace_by_nothing_from_length old (length old - 1) rest).
    simpl. lia.
  - destruct l1 as [|c' l1].
    + destruct Hprefix. split; [done|]. exists l2. by rewrite Htext.
    + injection Htext as -> ->. simpl. apply ->Nat.succ_lt_mono. apply IH. eauto.
Qed.

Lemma replace_by_nothing_from_skip old (dropped : list char) text :
  replace_by_nothing_from old (length dropped) (dropped ++ text)
  = replace_by_nothing old text.
Proof. induction dropped as [|c dropped IH]; [done|]. simpl. exact IH. Qed.

Lemma replace_by_nothing_prefix old text :
  old ≠ [] → replace_by_nothing old (old ++ text) = replace_by_nothing old text.
Proof.
  intros Hold. destruct old as [|c old']; [done|].
  unfold replace_by_nothing at 1.
  change ((c :: old') ++ text) with (c :: (old' ++ text)).
  cbn [replace_by_nothing_from]. rewrite bool_decide_eq_true_2.
  - cbn [length]. rewrite Nat.sub_succ, Nat.sub_0_r.
    apply replace_by_nothing_from_skip.
  - split; [done|]. by exists text.
Qed.

Lemma _remove_tags_to_ignore_sublist tags text :
  _remove_tags_to_ignore tags text `sublist_of` text.
Proof.
  unfold _remove_tags_to_ignore. revert text.
  induction tags as [|tag tags IH]; intros text; [done|].
  simpl. etrans; [apply IH|]. apply replace_by_nothing_from_sublist.
Qed.

Lemma is_allowed_sublist (allowed_characters : list char) text text' :
  text' `sublist_of` text →
  is_allowed allowed_characters text = true →
  is_allowed allowed_characters text' = true.
Proof.
  unfold is_allowed. induction 1 as [|c l1 l2 _ IH|c l1 l2 _ IH]; simpl.
  - done.
  - intros [Hc Hrest]%andb_true_iff. rewrite Hc. by apply IH.
  - intros [_ Hrest]%andb_true_iff. by apply IH.
Qed.

(** X14.  Removing the tags to ignore only deletes characters: the
    result is the text with some characters left out, in the same
    order.  The text comes back unchanged exactly when no tag other
    than the empty one occurs in it.  A label that is allowed stays
    allowed when the tags are removed. *)
Theorem remove_tags_only_deletes tags text :
  let occurs tag := tag ≠ [] ∧ ∃ l1 l2, text = l1 ++ tag ++ l2 in
  _remove_tags_to_ignore tags text `sublist_of` text
  ∧ (_remove_tags_to_ignore tags text = text
     ↔ Forall (λ tag, ¬ occurs tag) tags)
  ∧ ∀ allowed_characters,
      is_allowed allowed_characters text = true →
      is_allowed allowed_characters (_remove_tags_to_ignore tags text) = true.
Proof.
  intros occurs. split_and!.
  - apply _remove_tags_to_ignore_sublist.
  - unfold occurs. clear occurs. induction tags as [|tag tags IH].
    { split; [by constructor|done]. }
    change (_remove_tags_to_ignore (tag :: tags) text)
      with (_remove_tags_to_ignore tags (replace_by_nothing tag text)).
    split.
    + intros Hsame.
      assert (¬ (tag ≠ [] ∧ ∃ l1 l2, text = l1 ++ tag ++ l2)) as Habsent.
      { intros [Htag Hocc].
        pose proof (replace_by_nothing_present tag text Htag Hocc) as Hshort.
        pose proof (sublist_length _ _
          (_remove_tags_to_ignore_sublist tags (replace_by_nothing tag text)))
          as Hle.
        rewrite Hsame in Hle. lia. }
      rewrite replace_by_nothing_absent in Hsame by done.
      constructor; [done|]. by apply IH.
    + intros [Habsent Hrest]%Forall_cons.
      rewrite replace_by_nothing_absent by done. by apply IH.
  - intros allowed_characters. apply is_allowed_sublist.
    apply _remove_tags_to_ignore_sublist.
Qed.

(** X15.  Without a root directory to skip the member names stay as
    they are.  With one, every member keeps its position, its new name
    is the old one with some characters left out, and a name that
    starts with the root directory name and does not contain it again
    becomes the rest of the name. *)
Theorem tar_members_root_skipped (root : list char)
    (member_names : list (list char)) :
  _tar_members_root_directory_skipped_if_specified None member_names
  = member_names
  ∧ Forall2 (λ new old, new `sublist_of` old)
      (_tar_members_root_directory_skipped_if_specified (Some root)
         member_names)
      member_names
  ∧ ∀ i rest,
      root ≠ [] → member_names !! i = Some (root ++ rest) →
      ¬ (∃ l1 l2, rest = l1 ++ root ++ l2) →
      _tar_members_root_directory_skipped_if_specified (Some root)
        member_names !! i
      = Some rest.
Proof.
  unfold _tar_members_root_directory_skipped_if_specified. split_and!.
  - done.
  - apply Forall2_fmap_l, Forall_Forall2_diag, Forall_forall.
    intros name _. apply replace_by_nothing_from_sublist.
  - intros i rest Hroot Hi Habsent. rewrite list_lookup_fmap, Hi. simpl.
    rewrite replace_by_nothing_prefix by done.
    rewrite replace_by_nothing_absent; [done|]. by intros [_ ?].
Qed.
End TextFacts.

(** ** [corpus_provider.py]: splits, labels and duplicates *)

Section SplitFacts.
Context {Example : Type}.
Variable audio_directory : Example → list string.
Implicit Types (examples : list Example).

(** X16.  [by_directory] puts every example on exactly one side and
    keeps the order on both sides.  The training examples, the first
    component, are the examples whose audio directory has the given
    name, and the test examples are all others. *)
Theorem by_directory_partition (test_directory_name : string) examples :
  let split := by_directory audio_directory test_directory_name examples in
  fst split ++ snd split ≡ₚ examples
  ∧ fst split `sublist_of` examples
  ∧ snd split `sublist_of` examples
  ∧ ∀ e, e ∈ examples →
      (e ∈ fst split ↔ path_name (audio_directory e) = test_directory_name)
      ∧ (e ∈ snd split ↔ path_name (audio_directory e) ≠ test_directory_name).
Proof.
  unfold by_directory. cbn [fst snd]. split_and!.
  - apply filter_app_complement.
  - apply sublist_filter.
  - apply sublist_filter.
  - intros e He. rewrite !list_elem_of_filter. tauto.
Qed.

(** X17.  [randomly_by_directory] raises what the sampling of the
    directories raises.  Otherwise it puts every example on exactly one
    side, keeps the order on both sides, and the training examples are
    those whose audio directory was drawn: two examples of the same
    directory are never separated. *)
Theorem randomly_by_directory_partition
    (group_keys : list Example → list (list string))
    (sample : list (list string) → Z → result (list (list string)))
    (round_share : nat → Z) examples :
  let directories := group_keys examples in
  let drawn := sample directories (round_share (length directories)) in
  let split :=
    randomly_by_directory audio_directory group_keys sample round_share
      examples in
  (∀ e, drawn = inl e → split = inl e)
  ∧ ∀ training_directories, drawn = inr training_directories →
      ∃ training test,
        split = inr (training, test)
        ∧ training ++ test ≡ₚ examples
        ∧ training `sublist_of` examples
        ∧ test `sublist_of` examples
        ∧ (∀ e, e ∈ examples →
             (e ∈ training ↔ audio_directory e ∈ training_directories)
             ∧ (e ∈ test ↔ audio_directory e ∉ training_directories))
        ∧ ∀ e1 e2, e1 ∈ examples → e2 ∈ examples →
            audio_directory e1 = audio_directory e2 →
            (e1 ∈ training ↔ e2 ∈ training) ∧ (e1 ∈ test ↔ e2 ∈ test).
Proof.
  intros directories drawn split. unfold split, randomly_by_directory.
  fold directories. fold drawn. split.
  - by intros e ->.
  - intros training_directories ->. eexists _, _. split; [reflexivity|].
    split_and!.
    + apply filter_app_complement.
    + apply sublist_filter.
    + apply sublist_filter.
    + intros e He. rewrite !list_elem_of_filter, elem_of_list_to_set. tauto.
    + intros e1 e2 He1 He2 Hsame. rewrite !list_elem_of_filter, Hsame. tauto.
Qed.

Variable label_of : Example → string.

Lemma size_labels (labels : list string) :
  size (list_to_set labels : gset string) ≤ length labels
  ∧ (size (list_to_set labels : gset string) = length labels → NoDup labels).
Proof.
  induction labels as [|x labels [IHle IHeq]].
  { split; [done|]. intros _. constructor. }
  rewrite list_to_set_cons. cbn [length].
  destruct (decide (x ∈ labels)) as [Hx|Hx].
  - assert ({[x]} ⊆ (list_to_set labels : gset string)) as Hsub.
    { apply singleton_subseteq_l. by apply elem_of_list_to_set. }
    rewrite (subseteq_union_1_L _ _ Hsub). split; lia.
  - rewrite size_union
      by (by apply disjoint_singleton_l; rewrite elem_of_list_to_set).
    rewrite size_singleton.
    split; [lia|]. intros Heq. constructor; [done|]. apply IHeq. lia.
Qed.

Lemma size_labels_empty (labels : list string) :
  size (list_to_set labels : gset string)
  + length (filter (λ x, x = EmptyString) labels)
  ≤ length labels + (if decide (EmptyString ∈ labels) then 1 else 0).
Proof.
  induction labels as [|x labels IH]; [done|].
  rewrite list_to_set_cons, filter_cons. cbn [length].
  assert (size ({[x]} ∪ list_to_set labels : gset string)
          ≤ S (size (list_to_set labels : gset string))) as Hsize.
  { rewrite size_union_alt, size_singleton.
    assert (size (list_to_set labels ∖ {[x]} : gset string)
            ≤ size (list_to_set labels : gset string)); [|lia].
    by apply subseteq_size, subseteq_difference_l. }
  destruct (decide (x = EmptyString)) as [->|Hx].
  - rewrite decide_True by (by left). cbn [length].
    destruct (decide (EmptyString ∈ labels)) as [Hin|Hin]; [|lia].
    assert ({[EmptyString]} ⊆ (list_to_set labels : gset string)) as Hsub.
    { apply singleton_subseteq_l. by apply elem_of_list_to_set. }
    rewrite (subseteq_union_1_L _ _ Hsub). lia.
  - destruct (decide (EmptyString ∈ labels)) as [Hin|Hin].
    + rewrite decide_True by (by right). lia.
    + rewrite decide_False by (by intros [?|?]%elem_of_cons). lia.
Qed.

(** X18.  The duplicate label count is never negative, it is zero
    exactly when no two examples have the same label, and it is below
    the number of examples when there is an example.  All examples with
    an empty label but one count as duplicates. *)
Theorem duplicate_label_count_bounds examples :
  let duplicates := duplicate_label_count label_of examples in
  (0 ≤ duplicates)%Z
  ∧ (duplicates = 0%Z ↔ NoDup (label_of <$> examples))
  ∧ (examples ≠ [] → (duplicates < Z.of_nat (length examples))%Z)
  ∧ (Z.of_nat (length (empty_examples label_of examples)) ≤ duplicates + 1)%Z.
Proof.
  intros duplicates. unfold duplicates, duplicate_label_count.
  destruct (size_labels (label_of <$> examples)) as [Hle Heq].
  rewrite length_fmap in Hle, Heq.
  split; [lia|]. split; [|split].
  - split.
    + intros H. apply Heq. lia.
    + intros Hnodup. rewrite size_list_to_set, length_fmap by done. lia.
  - intros Hne. destruct examples as [|e examples]; [done|].
    rewrite fmap_cons, list_to_set_cons.
    assert (size ({[label_of e]} ∪ list_to_set (label_of <$> examples)
                  : gset string) ≠ 0); [|lia].
    apply size_non_empty_iff, non_empty_union. left.
    apply non_empty_singleton.
  - pose proof (size_labels_empty (label_of <$> examples)) as Hempty.
    rewrite length_fmap in Hempty.
    assert (length (filter (λ x, x = EmptyString) (label_of <$> examples))
            = length (empty_examples label_of examples)) as Hcount.
    { unfold empty_examples. clear.
      induction examples as [|e examples IH]; [done|].
      rewrite fmap_cons, !filter_cons.
      destruct (decide (label_of e = EmptyString)); simpl; by rewrite IH. }
    rewrite Hcount in Hempty.
    destruct (decide (EmptyString ∈ label_of <$> examples)); lia.
Qed.
End SplitFacts.

Section LabelFacts.
Variable readlines : list string → list string.
Variable split : string → list string.
Variable lower : string → string.

(** The label a line gives to [id], if it is a line for [id]. *)
Local Abbreviation label_for id line :=
  (match split line with
   | id' :: parts =>
       if decide (id' = id) then Some (lower (String.concat " " parts))
       else None
   | [] => None
   end).

Lemma add_lines_outcome (lines : list string)
    (labels_by_id : gmap string string) :
  (Exists (λ line, split line = []) lines →
   add_lines split lower lines labels_by_id = inl IndexError)
  ∧ (Forall (λ line, split line ≠ []) lines →
     ∃ labels_by_id',
       add_lines split lower lines labels_by_id = inr labels_by_id'
       ∧ ∀ id, labels_by_id' !! id
               = match last (omap (λ line, label_for id line) lines) with
                 | Some label => Some label
                 | None => labels_by_id !! id
                 end).
Proof.
  revert labels_by_id.
  induction lines as [|line lines IH]; intros labels_by_id.
  { split; [by intros ?%Exists_nil|]. intros _. by exists labels_by_id. }
  cbn [add_lines omap list_omap].
  destruct (split line) as [|id' parts] eqn:Hparts.
  { split; [done|]. by intros [? _]%Forall_cons. }
  cbn [lookup list_lookup drop]. change (drop 0 parts) with parts.
  destruct (IH (<[id' := lower (String.concat " " parts)]> labels_by_id))
    as [IHraise IHreturn].
  split.
  - intros [?|Hrest]%Exists_cons; [congruence|]. by apply IHraise.
  - intros [_ Hrest]%Forall_cons.
    destruct (IHreturn Hrest) as (labels_by_id' & -> & Hlabels).
    exists labels_by_id'. split; [done|]. intros id. rewrite Hlabels.
    destruct (decide (id' = id)) as [->|Hid].
    + rewrite last_cons, lookup_insert_eq.
      by destruct (last (omap _ lines)).
    + by rewrite lookup_insert_ne.
Qed.

Lemma add_files_lines (label_files : list (list string))
    (labels_by_id : gmap string string) :
  (Exists (λ line, split line = []) (mjoin (readlines <$> label_files)) →
   add_files readlines split lower label_files labels_by_id = inl IndexError)
  ∧ (Forall (λ line, split line ≠ []) (mjoin (readlines <$> label_files)) →
     ∃ labels_by_id',
       add_files readlines split lower label_files labels_by_id
       = inr labels_by_id'
       ∧ ∀ id, labels_by_id' !! id
               = match last (omap (λ line, label_for id line)
                               (mjoin (readlines <$> label_files))) with
                 | Some label => Some label
                 | None => labels_by_id !! id
                 end).
Proof.
  revert labels_by_id.
  induction label_files as [|file label_files IH]; intros labels_by_id.
  { split; [by intros ?%Exists_nil|]. intros _. by exists labels_by_id. }
  rewrite fmap_cons. cbn [mjoin list_join add_files].
  destruct (add_lines_outcome (readlines file) labels_by_id)
    as [Hraise Hreturn].
  split.
  - intros [Hfile|Hrest]%Exists_app.
    + by rewrite Hraise.
    + destruct (add_lines _ _ _ _) as [e|labels_by_id'] eqn:Hlines.
      * destruct (decide (Exists (λ line, split line = []) (readlines file)))
          as [Hex|Hex]; [by apply Hraise|].
        apply not_Exists_Forall in Hex; [|apply _].
        by destruct (Hreturn Hex) as (? & ? & _).
      * by apply IH.
  - intros [Hfile Hrest]%Forall_app.
    destruct (Hreturn Hfile) as (labels_by_id1 & -> & Hlabels1).
    destruct (IH labels_by_id1) as [_ IHreturn].
    destruct (IHreturn Hrest) as (labels_by_id2 & -> & Hlabels2).
    exists labels_by_id2. split; [done|]. intros id.
    rewrite Hlabels2, omap_app, last_app, Hlabels1.
    by destruct (last (omap _ (mjoin _))).
Qed.

(** X19.  Only the files whose name ends in [.txt] are read, in the
    order given.  A line without any token, such as an empty line,
    makes the extraction raise [IndexError].  Otherwise a dictionary is
    returned: an id is a key exactly when some line starts with it, and
    its label is the lower-cased rest of the last such line, the tokens
    joined by single spaces. *)
Theorem labels_by_id_last_line_wins (files : list (list string)) :
  let lines :=
    mjoin (readlines
             <$> filter (λ file, endswith (path_name file) ".txt" = true)
                   files) in
  (Exists (λ line, split line = []) lines →
   _extract_labels_by_id readlines split lower files = inl IndexError)
  ∧ (Forall (λ line, split line ≠ []) lines →
     ∃ labels_by_id,
       _extract_labels_by_id readlines split lower files = inr labels_by_id
       ∧ ∀ id, labels_by_id !! id
               = last (omap (λ line, label_for id line) lines)).
Proof.
  intros lines. unfold _extract_labels_by_id.
  destruct (add_files_lines
              (filter (λ file, endswith (path_name file) ".txt" = true) files)
              ∅) as [Hraise Hreturn].
  split; [done|]. intros Hlines.
  destruct (Hreturn Hlines) as (labels_by_id & -> & Hlabels).
  exists labels_by_id. split; [done|]. intros id. rewrite Hlabels.
  fold lines. by destruct (last _).
Qed.
End LabelFacts.

(** ** Construction *)

Section InitFacts.
Context {float : Type}.
Variables CtcGraphemeEncoding AsgGraphemeEncoding
  : list Ascii.ascii → @GraphemeEncoding float.
Variable true_divide : Z → Z → float.
Variables (randint2 : nat → nat → Z) (randint1 : nat → Z).

End InitFacts.

(** * The further properties at the example objects *)

Lemma example_randint1_range i : (1 ≤ example_randint1 i < 15)%Z.
Proof.
  unfold example_randint1. pose proof (Nat.mod_upper_bound i 14). lia.
Qed.

Lemma frozen_layers_from_the_end_witness :
  (-1 < 0)%Z
  ∧ ∀ (i : nat) l,
      create_predictive_net (None : option Qc) "relu" "softmax" false 1 29
        (-1) !! i = Some l →
      trainable l = bool_decide (11 + -1 ≤ Z.of_nat i)%Z.
Proof.
  split; [lia|].
  apply (frozen_layers_from_the_end (None : option Qc) "relu" "softmax"
           false 1 29 (-1)).
  lia.
Defined.

Lemma ratio_depends_on_input_only_witness :
  constructed example_dropout_net
  ∧ input_to_prediction_length_ratio example_dropout_net
    = (inr 2, with_ratio example_dropout_net)
  ∧ lazy_input_to_prediction_length_ratio (with_ratio example_dropout_net)
    = Some 2
  ∧ input_to_prediction_length_ratio (with_ratio example_dropout_net)
    = (inr 2, with_ratio example_dropout_net).
Proof.
  split; [apply constructed_init|].
  apply (ratio_depends_on_input_only example_dropout_net).
  apply constructed_init.
Defined.

Lemma assembly_raises_only_ValueError_witness :
  constructed example_net
  ∧ fst (_input_batch_and_prediction_lengths 0%Qc
           [example_spectrogram 4;
            {| shape1 := 2; rows := [[1%Qc; 1%Qc]] |}] example_net)
    = inl ValueError.
Proof.
  split; [apply constructed_init|].
  destruct (assembly_raises_only_ValueError 0%Qc example_net
              (example_spectrogram 4)
              [{| shape1 := 2; rows := [[1%Qc; 1%Qc]] |}])
    as [[_ Hraised] _].
  - apply constructed_init.
  - apply Hraised. exists {| shape1 := 2; rows := [[1%Qc; 1%Qc]] |}.
    split; [|simpl; lia]. apply list_elem_of_further, list_elem_of_here.
Defined.

Lemma predict_single_unpadded_witness :
  constructed example_net
  ∧ well_formed (example_spectrogram 4)
  ∧ predict_single 0%Qc (λ _ _ batch, batch) (example_spectrogram 4)
      example_net
    = (inr EmptyString, with_ratio example_net).
Proof.
  split; [apply constructed_init|].
  assert (well_formed (example_spectrogram 4)) as Hwf
    by (by apply Forall_replicate).
  split; [exact Hwf|].
  rewrite (predict_single_unpadded 0%Qc (λ _ _ batch, batch) example_net
             (example_spectrogram 4)).
  - reflexivity.
  - apply constructed_init.
  - exact Hwf.
Defined.

Lemma generator_item_consistent_witness :
  constructed example_net
  ∧ accepted (spectrogram <$> [example_labeled 4; example_labeled 2])
  ∧ ∃ d,
      _generator_item 0%Qc [example_labeled 4; example_labeled 2] example_net
      = (inr (d, [0%Qc; 0%Qc]), with_ratio example_net)
      ∧ dict_prediction_lengths d = [2; 1]
      ∧ dict_label_lengths d = [1; 1].
Proof.
  split; [apply constructed_init|].
  assert (accepted (spectrogram <$> [example_labeled 4; example_labeled 2]))
    as Hacc.
  { split; repeat constructor. all: by apply Forall_replicate. }
  split; [exact Hacc|].
  destruct (generator_item_consistent 0%Qc example_net
              [example_labeled 4; example_labeled 2])
    as [(d & width & Hrun & _ & _ & Hlengths & _ & Hlabels & _) _].
  - apply constructed_init.
  - exact Hacc.
  - exists d. split; [exact Hrun|]. split; [exact Hlengths|exact Hlabels].
Defined.

Lemma loss_net_built_once_witness :
  constructed example_net
  ∧ use_asg example_net = false
  ∧ ∃ net self',
      loss_net example_net = (inr net, self')
      ∧ lazy_loss_net example_net = None
      ∧ lazy_loss_net self' = Some net
      ∧ loss_net self' = (inr net, self').
Proof.
  split; [apply constructed_init|]. split; [reflexivity|].
  destruct (loss_net_built_once example_net)
    as (self' & Hfirst & Hkept & Hsecond & _).
  - apply constructed_init.
  - reflexivity.
  - eexists _, self'. split; [exact Hfirst|]. split; [reflexivity|].
    split; [exact Hkept|exact Hsecond].
Defined.

Lemma on_epoch_end_effects_witness :
  2%Z ≠ 0%Z ∧ 3%Z ≠ 0%Z
  ∧ ∃ called saved,
      on_epoch_end (inr ()) ["nets"] 2 3 6 = (called ++ saved, inr ())
      ∧ called = [CallCallback]
      ∧ saved = [Makedirs ["nets"];
                 SaveWeights ["nets"; model_file_name 6]].
Proof.
  split; [lia|]. split; [lia|].
  destruct (on_epoch_end_effects ["nets"] 2 3 6)
    as [(called & saved & Hrun & Hcalled & Hsaved) _]; [lia..|].
  exists called, saved. split; [exact Hrun|]. split.
  - destruct Hcalled as [[_ ->]|[Hno _]]; [reflexivity|].
    destruct Hno. exists 3%Z. lia.
  - destruct Hsaved as [[_ ->]|[Hno _]]; [reflexivity|].
    destruct Hno. split; [exists 2%Z|]; lia.
Defined.

Lemma on_epoch_end_raises_witness :
  on_epoch_end (inr ()) ["nets"] 0 1 5 = ([], inl ZeroDivisionError)
  ∧ on_epoch_end (inl ValueError) ["nets"] 1 1 5
    = ([CallCallback], inl ValueError)
  ∧ ∃ called,
      on_epoch_end (inr ()) ["nets"] 1 0 0 = (called, inl ZeroDivisionError).
Proof.
  split; [|split].
  - destruct (on_epoch_end_raises (inr ()) ["nets"] 0 1 5) as (Hzero & _).
    by apply Hzero.
  - destruct (on_epoch_end_raises (inl ValueError) ["nets"] 1 1 5)
      as (_ & Hpassed & _).
    apply Hpassed; [lia|exists 5%Z; lia|reflexivity].
  - destruct (on_epoch_end_raises (inr ()) ["nets"] 1 0 0) as (_ & _ & Hsave).
    destruct Hsave as (called & Hrun & _); [lia|reflexivity|reflexivity|].
    by exists called.
Defined.

Lemma train_outcome_witness :
  constructed example_asg_net
  ∧ constructed example_net
  ∧ accepted (spectrogram <$> [example_labeled 4])
  ∧ train 0%Qc (λ _ _ batch, batch) [[example_labeled 4]] [example_labeled 4]
      1 example_asg_net
    = (inl (NotImplementedError "ASG is not yet implemented."),
       with_ratio example_asg_net)
  ∧ ∃ printed call,
      fst (train 0%Qc (λ _ _ batch, batch) [[example_labeled 4]]
             [example_labeled 4] 1 example_net)
      = inr (printed, call)
      ∧ fit_initial_epoch call = 0
      ∧ fit_batches call = [[example_labeled 4]].
Proof.
  split; [apply constructed_init|]. split; [apply constructed_init|].
  assert (accepted (spectrogram <$> [example_labeled 4])) as Hacc.
  { split; repeat constructor. all: by apply Forall_replicate. }
  split; [exact Hacc|]. split.
  - destruct (train_outcome 0%Qc (λ _ _ batch, batch) example_asg_net
                [[example_labeled 4]] [example_labeled 4] 1)
      as (Hasg & _); [apply constructed_init|exact Hacc|].
    by destruct Hasg as [Hraised _].
  - destruct (train_outcome 0%Qc (λ _ _ batch, batch) example_net
                [[example_labeled 4]] [example_labeled 4] 1)
      as (_ & Hctc & _); [apply constructed_init|exact Hacc|].
    destruct Hctc as (Hrun & _); [reflexivity|].
    eexists _, _. split; [by rewrite Hrun|]. by split.
Defined.

Lemma default_initial_probabilities_witness :
  (∀ i, (1 ≤ example_randint1 i < 15)%Z)
  ∧ _default_asg_initial_probabilities exact_divide example_randint1 2
    = [exact_divide 0 5; exact_divide 2 5; exact_divide 3 5]
  ∧ np_sum (_default_asg_initial_probabilities exact_divide
              example_randint1 2)
    = finite 1%Qc.
Proof.
  split; [apply example_randint1_range|]. split; [reflexivity|].
  destruct (default_initial_probabilities exact_divide example_randint1 2
              example_randint1_range)
    as (_ & _ & _ & _ & Hexact & _).
  destruct Hexact as [_ Hsum]; [lia|exact Hsum].
Defined.
